(** * Synthetic acceleration data for the structural-health-monitoring workflow

    A shallow embedding of [examples/generate_sample_data.py]: the signal
    synthesizer [generate_synthetic_acceleration_data], the record writer
    [create_sample_pickle_file] and the dataset assembler
    [generate_sample_dataset], followed by the properties proved about them.

    Conventions of the model:
    - Python [int] is [Z]; counts and indices are [Z] as in the source and
      are turned into [nat] only where a list is built.
    - numpy's float64 samples are real numbers ([R]): rounding is not
      modelled.  [int(c * n)] for a decimal literal [c] is the truncation of
      the exact product, computed over [Q].
    - a [datetime] is its number of microseconds since 1970-01-01T00:00:00
      (naive, proleptic Gregorian); a pandas timestamp is a number of
      nanoseconds since the same instant.
    - the process-global sources of nondeterminism (numpy's generator and the
      wall clock) are an explicit [Oracle]; the position reached in each of
      them, and the files written so far, are the [world] threaded through
      the program.  A raised exception carries the world at the point of
      failure, so files written before it stay written. *)

From Stdlib Require Import ZArith QArith Qreals Reals Lra Lia List String Ascii.
From stdpp Require Import base gmap strings pretty list fin_maps.

Local Open Scope string_scope.

(** ** Values of the configuration, metadata and summary dictionaries *)

(** What the YAML loader delivers and what the generator stores in its
    metadata and summary dictionaries.  Lists only occur as lists of strings
    (sensor names, command lines, the empty tag list). *)
#[warning="-register-all"]
Inductive pyval : Type :=
  | PNone
  | PBool (b : bool)
  | PInt (z : Z)
  | PStr (s : string)
  | PStrs (l : list string)
  | PDict (d : gmap string pyval).

(** ** Persisted data *)

(** A pandas DataFrame: the shared time index (nanoseconds) and the columns
    in insertion order. *)
Record waveform_table : Type := DataFrame_ {
  wt_index : list Z;
  wt_columns : list (string * list R)
}.

(** What [pickle.dump] and [yaml.dump] leave on disk. *)
Inductive file : Type :=
  | PickleFile (accelerations : waveform_table) (metadata : pyval)
  | YamlFile (document : pyval).

(** ** Exceptions, oracle, world and the effect monad *)

Inductive py_error : Type :=
  | ValueError
  | TypeError
  | AttributeError
  | ZeroDivisionError
  | OverflowError.

(** One raw draw of the generator.  The same raw draw is read as a standard
    normal deviate, as a uniform deviate in [[0, 1)] or as an integer,
    depending on the numpy function that consumes it. *)
Record Oracle : Type := {
  o_normal : nat -> R;
  o_unit : nat -> N * positive;
  o_raw : nat -> N;
  o_now : nat -> Z
}.

Record world : Type := World {
  w_rng : nat;
  w_clk : nat;
  w_files : gmap string file
}.

Inductive outcome (A : Type) : Type :=
  | Ok (a : A) (w : world)
  | Raise (e : py_error) (w : world).
Arguments Ok {A} a w.
Arguments Raise {A} e w.

Definition M (A : Type) : Type := world -> outcome A.

Definition ret {A} (a : A) : M A := fun w => Ok a w.

Definition raise {A} (e : py_error) : M A := fun w => Raise e w.

Definition bind {A B} (c : M A) (k : A -> M B) : M B :=
  fun w => match c w with
           | Ok a w' => k a w'
           | Raise e w' => Raise e w'
           end.

Notation "x <- c ;; k" := (bind c (fun x => k))
  (at level 20, c at level 99, k at level 200, right associativity).
Notation "' pat <- c ;; k" := (bind c (fun x => match x with pat => k end))
  (at level 20, pat pattern, c at level 99, k at level 200,
   right associativity).

(** [for i, x in enumerate(l)] with the loop-carried state [s]; [i] is the
    index of the first element. *)
Fixpoint for_enumerate {A S} (body : Z -> A -> S -> M S)
    (i : Z) (l : list A) (s : S) : M S :=
  match l with
  | [] => ret s
  | x :: l' => s' <- body i x s ;; for_enumerate body (i + 1)%Z l' s'
  end.

(** [for x in l] for a body without loop-carried state. *)
Fixpoint for_each {A} (body : A -> M unit) (l : list A) : M unit :=
  match l with
  | [] => ret tt
  | x :: l' => _ <- body x ;; for_each body l'
  end.

(** ** numpy's random functions *)

Definition unit_value (d : N * positive) : Q :=
  Z.of_N (fst d mod Npos (snd d)) # snd d.

Definition advance_rng (k : nat) (w : world) : world :=
  World (w_rng w + k) (w_clk w) (w_files w).

Section Draws.
Variable O : Oracle.

(** [np.random.randn()] *)
Definition randn : M R :=
  fun w => Ok (o_normal O (w_rng w)) (advance_rng 1 w).

(** [np.random.randn(n)] *)
Definition randn_array (n : Z) : M (list R) :=
  fun w => Ok (map (o_normal O) (seq (w_rng w) (Z.to_nat n)))
              (advance_rng (Z.to_nat n) w).

(** [np.random.rand()] *)
Definition rand : M Q :=
  fun w => Ok (unit_value (o_unit O (w_rng w))) (advance_rng 1 w).

(** [np.random.uniform(low, high)] *)
Definition uniform (low high : R) : M R :=
  u <- rand ;; ret (low + (high - low) * Q2R u)%R.

(** [np.random.randint(low, high)]: an integer of [[low, high)], and
    [ValueError] when that range is empty. *)
Definition randint (low high : Z) : M Z :=
  fun w => if (low <? high)%Z
           then Ok (low + Z.of_N (o_raw O (w_rng w)) mod (high - low))%Z
                   (advance_rng 1 w)
           else Raise ValueError w.

(** [np.random.choice(['good', 'fair', 'excellent'], p=[0.6, 0.3, 0.1])]:
    the position of a uniform deviate in the cumulative weights. *)
Definition choice_quality : M string :=
  u <- rand ;;
  ret (if Qle_bool 0.9 u then "excellent"
       else if Qle_bool 0.6 u then "fair" else "good").

(** [datetime.now()] *)
Definition datetime_now : M Z :=
  fun w => Ok (o_now O (w_clk w)) (World (w_rng w) (S (w_clk w)) (w_files w)).
End Draws.

(** [x < y] on the rationals that decide a branch. *)
Definition Qltb (x y : Q) : bool := negb (Qle_bool y x).

(** ** numpy's array functions *)

(** [int(q)]: truncation toward zero. *)
Definition py_int (q : Q) : Z := Z.quot (Qnum q) (Zpos (Qden q)).

(** [np.linspace(start, stop, num)] *)
Definition linspace (start stop : R) (num : Z) : M (list R) :=
  if (num <? 0)%Z then raise ValueError
  else if (num =? 1)%Z then ret [start]
  else ret (map (fun k => (start + IZR k * ((stop - start) / IZR (num - 1)))%R)
                (seqZ 0 num)).

(** [np.zeros(n)] *)
Definition zeros (n : Z) : list R := replicate (Z.to_nat n) 0%R.

(** [np.mean(a)] *)
Definition sum_R (a : list R) : R := fold_right Rplus 0%R a.
Definition mean (a : list R) : R := (sum_R a / INR (length a))%R.

(** Python's normalisation of one slice bound against a length [n]. *)
Definition norm_index (n i : Z) : Z :=
  if (i <? 0)%Z then Z.max (i + n) 0 else Z.min i n.

(** The index range [[lo, hi)] selected by [a[start:stop]]; a missing bound
    is [None]. *)
Definition slice_bounds (n : Z) (start stop : option Z) : Z * Z :=
  (from_option (norm_index n) 0%Z start, from_option (norm_index n) n stop).

(** [a[start:stop] += c] for a scalar [c]. *)
Definition iadd_slice_scalar (a : list R) (start stop : option Z) (c : R)
    : list R :=
  let '(lo, hi) := slice_bounds (Z.of_nat (length a)) start stop in
  imap (fun k x => if bool_decide (lo <= Z.of_nat k < hi)%Z
                   then (x + c)%R else x) a.

(** [a[start:stop] += v] for an array [v]: the shapes must agree, a
    one-element [v] is broadcast, anything else is a [ValueError]. *)
Definition iadd_slice_array (a : list R) (start stop : option Z) (v : list R)
    : M (list R) :=
  let '(lo, hi) := slice_bounds (Z.of_nat (length a)) start stop in
  if bool_decide (length v = Z.to_nat (hi - lo)) then
    ret (imap (fun k x => if bool_decide (lo <= Z.of_nat k < hi)%Z
                          then (x + nth (k - Z.to_nat lo) v 0)%R else x) a)
  else if bool_decide (length v = 1%nat) then
    ret (iadd_slice_scalar a start stop (nth 0 v 0%R))
  else raise ValueError.

(** [a += v] *)
Definition iadd_array (a v : list R) : M (list R) :=
  iadd_slice_array a None None v.

(** [data[key] = value] on an insertion-ordered dictionary. *)
Fixpoint dict_set {A} (key : string) (value : A) (d : list (string * A))
    : list (string * A) :=
  match d with
  | [] => [(key, value)]
  | (k, v) :: d' =>
      if bool_decide (k = key) then (k, value) :: d'
      else (k, v) :: dict_set key value d'
  end.

(** ** datetime and pandas helpers *)

Definition US_PER_SECOND : Z := 1000000.
Definition US_PER_MINUTE : Z := 60 * US_PER_SECOND.
Definition US_PER_DAY : Z := 86400 * US_PER_SECOND.

(** Days from 1970-01-01 to the civil date [y]-[m]-[d]. *)
Definition days_from_civil (y m d : Z) : Z :=
  let y' := if (m <=? 2)%Z then (y - 1)%Z else y in
  let era := (y' / 400)%Z in
  let yoe := (y' - era * 400)%Z in
  let doy := ((153 * (if (2 <? m)%Z then m - 3 else m + 9) + 2) / 5 + d - 1)%Z in
  let doe := (yoe * 365 + yoe / 4 - yoe / 100 + doy)%Z in
  (era * 146097 + doe - 719468)%Z.

(** The civil date (year, month, day) of a day number. *)
Definition civil_from_days (z : Z) : Z * Z * Z :=
  let z' := (z + 719468)%Z in
  let era := (z' / 146097)%Z in
  let doe := (z' - era * 146097)%Z in
  let yoe := ((doe - doe / 1460 + doe / 36524 - doe / 146096) / 365)%Z in
  let doy := (doe - (365 * yoe + yoe / 4 - yoe / 100))%Z in
  let mp := ((5 * doy + 2) / 153)%Z in
  let d := (doy - (153 * mp + 2) / 5 + 1)%Z in
  let m := if (mp <? 10)%Z then (mp + 3)%Z else (mp - 9)%Z in
  let y := (yoe + era * 400)%Z in
  (if (m <=? 2)%Z then y + 1 else y, m, d)%Z.

(** [datetime(y, m, d, hh, mm, ss)] *)
Definition datetime (y m d hh mm ss : Z) : Z :=
  (days_from_civil y m d * US_PER_DAY
   + ((hh * 60 + mm) * 60 + ss) * US_PER_SECOND)%Z.

Definition datetime_min : Z := datetime 1 1 1 0 0 0.
Definition datetime_max : Z := (datetime 9999 12 31 23 59 59 + 999999)%Z.

(** [timedelta(minutes=k)] in microseconds. *)
Definition timedelta_minutes (k : Z) : Z := (k * US_PER_MINUTE)%Z.

(** [dt + delta]: [OverflowError] outside the years 1..9999. *)
Definition datetime_add (dt delta : Z) : M Z :=
  let r := (dt + delta)%Z in
  if ((datetime_min <=? r) && (r <=? datetime_max))%Z then ret r
  else raise OverflowError.

(** [dt.replace(second=0, microsecond=0)] *)
Definition replace_second_microsecond (dt : Z) : Z :=
  (dt - dt mod US_PER_MINUTE)%Z.

Definition digit_char (d : Z) : ascii :=
  ascii_of_nat (48 + Z.to_nat (d mod 10)).

(** The [w] low decimal digits of [n], most significant first. *)
Fixpoint zero_pad (w : nat) (n : Z) : string :=
  match w with
  | O => ""
  | S w' => zero_pad w' (n / 10) +:+ String (digit_char n) ""
  end.

(** [str(n)] for an integer, as an f-string interpolates it: the decimal
    digits, after a minus sign for a negative number. *)
Definition str_int (n : Z) : string := pretty n.

Record civil_time : Type := Civil {
  c_year : Z; c_month : Z; c_day : Z;
  c_hour : Z; c_minute : Z; c_second : Z; c_microsecond : Z
}.

Definition civil_of_datetime (dt : Z) : civil_time :=
  let '(y, m, d) := civil_from_days (dt / US_PER_DAY) in
  let r := (dt mod US_PER_DAY)%Z in
  Civil y m d (r / (3600 * US_PER_SECOND)) (r / US_PER_MINUTE mod 60)
        (r / US_PER_SECOND mod 60) (r mod US_PER_SECOND).

(** [dt.strftime('%Y%m%d%H%M%S')] *)
Definition strftime_compact (dt : Z) : string :=
  let c := civil_of_datetime dt in
  zero_pad 4 (c_year c) +:+ zero_pad 2 (c_month c) +:+ zero_pad 2 (c_day c)
  +:+ zero_pad 2 (c_hour c) +:+ zero_pad 2 (c_minute c)
  +:+ zero_pad 2 (c_second c).

(** [dt.isoformat()] *)
Definition isoformat (dt : Z) : string :=
  let c := civil_of_datetime dt in
  zero_pad 4 (c_year c) +:+ "-" +:+ zero_pad 2 (c_month c) +:+ "-"
  +:+ zero_pad 2 (c_day c) +:+ "T" +:+ zero_pad 2 (c_hour c) +:+ ":"
  +:+ zero_pad 2 (c_minute c) +:+ ":" +:+ zero_pad 2 (c_second c)
  +:+ (if (c_microsecond c =? 0)%Z then ""
       else "." +:+ zero_pad 6 (c_microsecond c)).

(** The pandas timestamp of a [datetime]. *)
Definition timestamp_ns (dt : Z) : Z := (dt * 1000)%Z.

Definition NS_PER_SECOND : Z := 1000000000.

(** [pd.date_range(start=start, periods=periods, freq=f'{1000/fs}ms')].
    The quotient [1000/fs] is a [ZeroDivisionError] for [fs = 0]; pandas
    accepts the frequency only when it is a whole number of nanoseconds. *)
Definition date_range_freq (start periods fs : Z) : M (list Z) :=
  if (fs =? 0)%Z then raise ZeroDivisionError
  else if negb (NS_PER_SECOND mod fs =? 0)%Z then raise ValueError
  else if (periods <? 0)%Z then raise ValueError
  else ret (map (fun k => (timestamp_ns start + k * (NS_PER_SECOND / fs))%Z)
                (seqZ 0 periods)).

(** [pd.date_range(start=start, end=end_, periods=periods)]: [periods]
    linearly spaced nanosecond timestamps, both ends included. *)
Definition date_range_periods (start end_ periods : Z) : M (list Z) :=
  if (periods <? 0)%Z then raise ValueError
  else if (periods =? 1)%Z then ret [timestamp_ns start]
  else ret (map (fun k => (timestamp_ns start
                           + k * (timestamp_ns end_ - timestamp_ns start)
                             / (periods - 1))%Z)
                (seqZ 0 periods)).

(** [pd.DataFrame(data, index=index)]: every column must be as long as the
    index. *)
Definition DataFrame (data : list (string * list R)) (index : list Z)
    : M waveform_table :=
  if forallb (fun kv => (length (snd kv) =? length index)%nat) data
  then ret (DataFrame_ index data)
  else raise ValueError.

(** [df.index = new_index] *)
Definition set_index (df : waveform_table) (new_index : list Z)
    : M waveform_table :=
  if (length new_index =? length (wt_index df))%nat
  then ret (DataFrame_ new_index (wt_columns df))
  else raise ValueError.

(** [len(df)] *)
Definition df_len (df : waveform_table) : Z := Z.of_nat (length (wt_index df)).

(** [open(path, 'w')] followed by a dump: the file is created or replaced. *)
Definition write_file (path : string) (f : file) : M unit :=
  fun w => Ok tt (World (w_rng w) (w_clk w) (<[path := f]> (w_files w))).

(** [Path(dir) / name] for a directory written as pathlib holds it and a
    name without separator (see [plain_name]); then the file is created in
    that directory, which the assembler has made sure exists. *)
Definition path_join (dir name : string) : string := dir +:+ "/" +:+ name.

(** [d.get(key, default)] *)
Definition py_get (d : pyval) (key : string) (fallback : pyval) : M pyval :=
  match d with
  | PDict m => ret (default fallback (m !! key))
  | _ => raise AttributeError
  end.

(** ** The signal synthesizer *)

Section Generator.
Variable O : Oracle.

(** One pass of the loop over [base_frequencies] (source lines 67-76). *)
Definition modal_contribution (sensor_names : list string) (i : Z)
    (t : list R) (j : Z) (freq : R) (signal : list R) : M (list R) :=
  let mode_factor :=
    sin (PI * IZR (i + 1) / IZR (Z.of_nat (length sensor_names) + 1)) in
  r <- randn O ;;
  let freq_var := (freq * (1 + 0.02 * r))%R in
  let amplitude := (0.1 * mode_factor * (1 / IZR (j + 1)))%R in
  phase <- uniform O 0 (2 * PI) ;;
  iadd_array signal
    (map (fun tk => (amplitude * sin (2 * PI * freq_var * tk + phase))%R) t).

(** The low-frequency trend (lines 78-81). *)
Definition add_trend (trend_amplitude : R) (t signal : list R) : M (list R) :=
  r <- randn O ;;
  let trend_freq := (0.001 + 0.001 * r)%R in
  phase <- uniform O 0 (2 * PI) ;;
  let trend :=
    map (fun tk => (trend_amplitude * sin (2 * PI * trend_freq * tk + phase))%R)
        t in
  iadd_array signal trend.

(** The broadband noise (lines 83-85). *)
Definition add_noise (noise_level : R) (n_samples : Z) (signal : list R)
    : M (list R) :=
  z <- randn_array O n_samples ;;
  let noise := map (fun x => (noise_level * x)%R) z in
  iadd_array signal noise.

(** The bounds of the shifted region (lines 89-91), drawn once the
    injection has triggered. *)
Definition outlier_range (n_samples : Z) : M (Z * Z) :=
  outlier_start <- randint O (py_int (0.1 * inject_Z n_samples))
                             (py_int (0.8 * inject_Z n_samples)) ;;
  outlier_duration <- randint O (py_int (0.01 * inject_Z n_samples))
                                (py_int (0.05 * inject_Z n_samples)) ;;
  let outlier_end := Z.min (outlier_start + outlier_duration) n_samples in
  ret (outlier_start, outlier_end).

(** The shift itself (lines 93-95). *)
Definition shift_outlier (n_samples : Z) (signal : list R) : M (list R) :=
  '(outlier_start, outlier_end) <- outlier_range n_samples ;;
  r <- randn O ;;
  let shift_amplitude := (0.3 * r)%R in
  ret (iadd_slice_scalar signal (Some outlier_start) (Some outlier_end)
                         shift_amplitude).

(** The occasional outlier region (lines 87-95). *)
Definition inject_outlier (n_samples : Z) (signal : list R) : M (list R) :=
  u <- rand O ;;
  if Qltb u 0.1 then shift_outlier n_samples signal else ret signal.

(** The attachment and detachment artifacts (lines 97-109). *)
Definition inject_edge_artifacts (n_samples : Z) (signal : list R)
    : M (list R) :=
  u <- rand O ;;
  if Qltb u 0.2 then
    let edge_samples := py_int (0.02 * inject_Z n_samples) in
    u1 <- rand O ;;
    signal <- (if Qltb u1 0.5 then
                 ramp <- linspace 2.0 0 edge_samples ;;
                 r <- randn O ;;
                 iadd_slice_array signal None (Some edge_samples)
                                  (map (fun x => (x * r)%R) ramp)
               else ret signal) ;;
    u2 <- rand O ;;
    (if Qltb u2 0.5 then
       ramp <- linspace 0 (-1.5) edge_samples ;;
       r <- randn O ;;
       iadd_slice_array signal (Some (- edge_samples)%Z) None
                        (map (fun x => (x * r)%R) ramp)
     else ret signal)
  else ret signal.

(** [signal - np.mean(signal) + target_mean] *)
Definition shift_mean (signal : list R) (target_mean : R) : list R :=
  map (fun x => (x - mean signal + target_mean)%R) signal.

(** The final re-centering (lines 111-113). *)
Definition recenter (signal : list R) : M (list R) :=
  target_mean <- uniform O (-1.05) (-0.95) ;;
  ret (shift_mean signal target_mean).

(** The body of the loop over the sensors, up to the store into [data]. *)
Definition sensor_signal (sensor_names : list string) (i : Z)
    (n_samples : Z) (t : list R) (base_frequencies : list R)
    (noise_level trend_amplitude : R) : M (list R) :=
  let signal := zeros n_samples in
  signal <- for_enumerate (modal_contribution sensor_names i t)
                          0%Z base_frequencies signal ;;
  signal <- add_trend trend_amplitude t signal ;;
  signal <- add_noise noise_level n_samples signal ;;
  signal <- inject_outlier n_samples signal ;;
  signal <- inject_edge_artifacts n_samples signal ;;
  recenter signal.

Definition generate_synthetic_acceleration_data (sensor_names : list string)
    (duration_minutes fs : Z) (base_frequencies : list R)
    (noise_level trend_amplitude : R) : M waveform_table :=
  let n_samples := (duration_minutes * 60 * fs)%Z in
  t <- linspace 0 (IZR (duration_minutes * 60)) n_samples ;;
  now <- datetime_now O ;;
  let start_time := replace_second_microsecond now in
  time_index <- date_range_freq start_time n_samples fs ;;
  data <- for_enumerate
            (fun i sensor data =>
               signal <- sensor_signal sensor_names i n_samples t
                           base_frequencies noise_level trend_amplitude ;;
               ret (dict_set sensor signal data))
            0%Z sensor_names [] ;;
  DataFrame data time_index.

(** ** The record writer *)

Definition create_sample_pickle_file (output_path : string)
    (acceleration_data : waveform_table) (metadata : option pyval) : M unit :=
  metadata <- match metadata with
              | Some m => ret m
              | None =>
                  now <- datetime_now O ;;
                  ret (PDict (list_to_map
                    [("tag_columns", PStrs []);
                     ("sampling_frequency", PInt 250);
                     ("generation_timestamp", PStr (isoformat now));
                     ("synthetic", PBool true)]))
              end ;;
  write_file output_path (PickleFile acceleration_data metadata).

(** ** The dataset assembler *)

(** The sensor names as the synthesizer iterates over them: a list, or the
    characters of a string.  Other values cannot be enumerated; a mapping in
    this position is outside the model. *)
Definition names_of (v : pyval) : option (list string) :=
  match v with
  | PStrs l => Some l
  | PStr s => Some (map (fun c => String c "") (list_ascii_of_string s))
  | _ => None
  end.

Definition as_names (v : pyval) : M (list string) :=
  match names_of v with
  | Some l => ret l
  | None => raise TypeError
  end.

(** The sampling frequency as the arithmetic of the synthesizer reads it.
    A string in this position is outside the model. *)
Definition int_of (v : pyval) : option Z :=
  match v with
  | PInt z => Some z
  | PBool b => Some (Z.b2z b)
  | _ => None
  end.

Definition as_int (v : pyval) : M Z :=
  match int_of v, v with
  | Some z, _ => ret z
  | None, PStr _ => raise ValueError
  | None, _ => raise TypeError
  end.

Definition anchor_time : Z := datetime 2024 1 1 9 0 0.

(** Start and end of a segment (lines 179-181). *)
Definition segment_times (segment : Z) : M (Z * Z) :=
  base_time <- datetime_add anchor_time
                 (timedelta_minutes ((segment - 1) * 30)) ;;
  let start_time := base_time in
  end_time <- datetime_add base_time (timedelta_minutes 25) ;;
  ret (start_time, end_time).

(** The name of a segment file (line 214). *)
Definition segment_filename (case_name : string) (segment : Z)
    (start_str end_str : string) : string :=
  case_name +:+ "_segment" +:+ str_int segment +:+ "_" +:+ start_str
  +:+ "_" +:+ end_str +:+ ".pickle".

(** The metadata dictionary of a segment (lines 202-211). *)
Definition segment_metadata (fs : pyval) (segment start_time end_time now : Z)
    (quality : string) : pyval :=
  PDict (list_to_map
    [("tag_columns", PStrs []);
     ("sampling_frequency", fs);
     ("segment_number", PInt segment);
     ("start_time", PStr (isoformat start_time));
     ("end_time", PStr (isoformat end_time));
     ("generation_timestamp", PStr (isoformat now));
     ("synthetic", PBool true);
     ("data_quality", PStr quality)]).

(** The body of the loop over the segments (lines 178-218). *)
Definition generate_segment (sensor_names fs : pyval)
    (output_path case_name : string) (segment : Z) : M unit :=
  '(start_time, end_time) <- segment_times segment ;;
  let start_str := strftime_compact start_time in
  let end_str := strftime_compact end_time in
  r1 <- randn O ;;
  r2 <- randn O ;;
  names <- as_names sensor_names ;;
  fs_hz <- as_int fs ;;
  acceleration_data <-
    generate_synthetic_acceleration_data names 25 fs_hz
      [(4 + IZR segment * 0.1)%R; (12 + IZR segment * 0.05)%R;
       (18 + IZR segment * 0.02)%R; 25%R; 35%R]
      (0.05 + 0.01 * r1)%R (0.02 + 0.005 * r2)%R ;;
  new_index <- date_range_periods start_time end_time
                 (df_len acceleration_data) ;;
  acceleration_data <- set_index acceleration_data new_index ;;
  now <- datetime_now O ;;
  quality <- choice_quality O ;;
  let metadata :=
    segment_metadata fs segment start_time end_time now quality in
  let filename := segment_filename case_name segment start_str end_str in
  let file_path := path_join output_path filename in
  create_sample_pickle_file file_path acceleration_data (Some metadata).

Definition default_sensor_names : list string :=
  ["sensor_1"; "sensor_2"; "sensor_3"; "sensor_4"].

Definition summary_filename : string := "dataset_summary.yaml".

(** The summary dictionary (lines 226-241). *)
Definition dataset_summary (sensor_names fs : pyval) (n_segments : Z)
    (case_name : string) (now : Z) : pyval :=
  PDict (list_to_map
    [("dataset_info", PDict (list_to_map
        [("n_segments", PInt n_segments);
         ("case_name", PStr case_name);
         ("sensors", sensor_names);
         ("sampling_frequency", fs);
         ("segment_duration_minutes", PInt 25);
         ("generation_date", PStr (isoformat now))]));
     ("file_pattern",
        PStr (case_name +:+ "_segment{N}_{start}_{end}.pickle"));
     ("expected_workflow_steps", PStrs
        ["step1_data_filtering_qc.py --config config.yaml";
         "step2_data_processing_oma.py --config config.yaml --case-name "
           +:+ case_name;
         "step3_modal_analysis.py --config config.yaml --mode 6"])]).

(** Creating the output directory is idempotent and leaves the files of
    the model untouched; console output is not modelled. *)
Definition generate_sample_dataset (config : pyval) (output_dir : string)
    (n_segments : Z) (case_name : string) : M string :=
  oma_config <- py_get config "oma" (PDict ∅) ;;
  geometry <- py_get oma_config "geometry" (PDict ∅) ;;
  sensor_names <- py_get geometry "sensor_names"
                    (PStrs default_sensor_names) ;;
  signal_config <- py_get config "signal_processing" (PDict ∅) ;;
  fs <- py_get signal_config "sampling_frequency" (PInt 250) ;;
  let output_path := output_dir in
  _ <- for_each (generate_segment sensor_names fs output_path case_name)
                (seqZ 1 n_segments) ;;
  now <- datetime_now O ;;
  let summary := dataset_summary sensor_names fs n_segments case_name now in
  let summary_path := path_join output_path summary_filename in
  _ <- write_file summary_path (YamlFile summary) ;;
  ret output_path.
End Generator.

(** ** Fixed oracles and worlds for the worked examples *)

(** No file written, no draw consumed, no clock reading taken. *)
Definition fresh_world : world := World 0 0 ∅.

(** Every normal deviate is 0, every uniform deviate is 0, the clock
    stands at the anchor time. *)
Definition still_oracle : Oracle := {|
  o_normal := fun _ => 0%R;
  o_unit := fun _ => (0%N, 1%positive);
  o_raw := fun _ => 0%N;
  o_now := fun _ => anchor_time
|}.

(** The integer draws that put an outlier region as late and as long as
    [randint] allows for 600 samples; every normal deviate is 1. *)
Definition late_outlier_oracle : Oracle := {|
  o_normal := fun _ => 1%R;
  o_unit := fun _ => (0%N, 1%positive);
  o_raw := fun k => match k with O => 419%N | _ => 23%N end;
  o_now := fun _ => anchor_time
|}.

(** ** Vocabulary of the statements *)

(** The band in which the quality control expects the mean of a channel. *)
Definition in_qc_band (x : R) : Prop := (-1.05 <= x <= -0.95)%R.

(** A column as the synthesizer finishes it: a signal of [n] samples moved
    to a target mean of the band. *)
Definition recentered_column (n : Z) (column : list R) : Prop :=
  exists signal target,
    length signal = Z.to_nat n /\ column = shift_mean signal target /\
    in_qc_band target.

(** The names of the columns of a table, in order. *)
Definition column_names (df : waveform_table) : list string :=
  map fst (wt_columns df).

(** A computation that leaves the files alone whenever it completes. *)
Definition keeps_files {A} (c : M A) : Prop :=
  forall w a w', c w = Ok a w' -> w_files w' = w_files w.

(** Partial correctness: every result of a completed run satisfies [Q]. *)
Definition ensures {A} (c : M A) (Q : A -> Prop) : Prop :=
  forall w a w', c w = Ok a w' -> Q a.

(** Total correctness from the world [w]: the run completes and its result
    satisfies [Q]. *)
Definition returns {A} (c : M A) (w : world) (Q : A -> world -> Prop) : Prop :=
  exists a w', c w = Ok a w' /\ Q a w'.

(** Two outcomes that agree on the position reached in the random source
    and, up to [Rel], on what was computed. *)
Definition same_draws {A} (Rel : A -> A -> Prop) (o1 o2 : outcome A) : Prop :=
  match o1, o2 with
  | Ok a1 w1, Ok a2 w2 => Rel a1 a2 /\ w_rng w1 = w_rng w2
  | Raise e1 w1, Raise e2 w2 => e1 = e2 /\ w_rng w1 = w_rng w2
  | _, _ => False
  end.

(** A computation whose outcome is decided by the position in the random
    source alone: neither the clock nor the files influence it. *)
Definition clock_blind {A} (c : M A) : Prop :=
  forall w1 w2, w_rng w1 = w_rng w2 -> same_draws eq (c w1) (c w2).

(** As [still_oracle], with a clock that advances by one minute from one
    reading to the next. *)
Definition ticking_oracle : Oracle := {|
  o_normal := fun _ => 0%R;
  o_unit := fun _ => (0%N, 1%positive);
  o_raw := fun _ => 0%N;
  o_now := fun k => (anchor_time + Z.of_nat k * US_PER_MINUTE)%Z
|}.

(** ** Vocabulary of the statements about the assembler *)

(** Start and end of a segment as plain arithmetic on microseconds. *)
Definition segment_start (segment : Z) : Z :=
  (anchor_time + timedelta_minutes ((segment - 1) * 30))%Z.

Definition segment_end (segment : Z) : Z :=
  (segment_start segment + timedelta_minutes 25)%Z.

(** The last segment whose end is still a [datetime]. *)
Definition last_segment : Z :=
  ((datetime_max - timedelta_minutes 25 - anchor_time)
   / timedelta_minutes 30 + 1)%Z.

(** Name and path of the file of a segment. *)
Definition segment_name (case_name : string) (segment : Z) : string :=
  segment_filename case_name segment
    (strftime_compact (segment_start segment))
    (strftime_compact (segment_end segment)).

Definition segment_path (output_dir case_name : string) (segment : Z)
    : string :=
  path_join output_dir (segment_name case_name segment).

Definition summary_path (output_dir : string) : string :=
  path_join output_dir summary_filename.

(** The time index a segment is given at sampling frequency [fs_hz]. *)
Definition segment_index (segment fs_hz : Z) : list Z :=
  let n := (25 * 60 * fs_hz)%Z in
  map (fun k => (timestamp_ns (segment_start segment)
                 + k * (timestamp_ns (segment_end segment)
                        - timestamp_ns (segment_start segment))
                   / (n - 1))%Z)
      (seqZ 0 n).

(** What the file of a segment holds. *)
Definition segment_record (sensor_names fs : pyval) (segment : Z) (f : file)
    : Prop :=
  exists names fs_hz columns now quality,
    names_of sensor_names = Some names /\ int_of fs = Some fs_hz /\
    (0 < fs_hz)%Z /\ (NS_PER_SECOND mod fs_hz = 0)%Z /\
    Forall (fun kv => recentered_column (25 * 60 * fs_hz) (snd kv)) columns /\
    (forall s, s ∈ map fst columns <-> s ∈ names) /\
    NoDup (map fst columns) /\
    quality ∈ ["good"; "fair"; "excellent"] /\
    f = PickleFile (DataFrame_ (segment_index segment fs_hz) columns)
          (segment_metadata fs segment (segment_start segment)
             (segment_end segment) now quality).

(** ** Characters of a string *)

Definition is_digit (c : ascii) : bool :=
  (48 <=? nat_of_ascii c)%nat && (nat_of_ascii c <=? 57)%nat.

Fixpoint all_digits (s : string) : bool :=
  match s with
  | EmptyString => true
  | String c s' => is_digit c && all_digits s'
  end.

(** [ch in s] *)
Fixpoint contains (ch : ascii) (s : string) : bool :=
  match s with
  | EmptyString => false
  | String c s' => bool_decide (c = ch) || contains ch s'
  end.

(** What follows the last occurrence of [ch] in [s]. *)
Fixpoint suffix_after_last (ch : ascii) (s : string) : option string :=
  match s with
  | EmptyString => None
  | String c s' =>
      match suffix_after_last ch s' with
      | Some r => Some r
      | None => if bool_decide (c = ch) then Some s' else None
      end
  end.

(** The files after a run, completed or not. *)
Definition files_after {A} (o : outcome A) : gmap string file :=
  match o with
  | Ok _ w => w_files w
  | Raise _ w => w_files w
  end.

(** A computation that leaves the files alone, also when it fails. *)
Definition never_writes {A} (c : M A) : Prop :=
  forall w, files_after (c w) = w_files w.

(** A computation whose failures leave the files as they were at its
    start. *)
Definition fails_cleanly {A} (c : M A) : Prop :=
  forall w e w', c w = Raise e w' -> w_files w' = w_files w.

(** The values the assembler resolves from the configuration
    (lines 159-166); [None] when a section is present but is no mapping. *)
Definition get_field (d : pyval) (key : string) (fallback : pyval)
    : option pyval :=
  match d with
  | PDict m => Some (default fallback (m !! key))
  | _ => None
  end.

Definition resolved_sensor_names (config : pyval) : option pyval :=
  match get_field config "oma" (PDict ∅) with
  | Some oma_config =>
      match get_field oma_config "geometry" (PDict ∅) with
      | Some geometry =>
          get_field geometry "sensor_names" (PStrs default_sensor_names)
      | None => None
      end
  | None => None
  end.

Definition resolved_sampling_frequency (config : pyval) : option pyval :=
  match get_field config "signal_processing" (PDict ∅) with
  | Some signal_config =>
      get_field signal_config "sampling_frequency" (PInt 250)
  | None => None
  end.

(** A case name that is a plain file-name prefix: without a separator, it
    neither redirects the record files to another directory nor needs a
    sub-directory to exist. *)
Definition plain_name (name : string) : Prop := contains "/" name = false.

(** A configuration naming two sensors sampled at 10 Hz. *)
Definition two_sensor_config : pyval :=
  PDict (list_to_map
    [("oma", PDict (list_to_map
        [("geometry", PDict (list_to_map
            [("sensor_names", PStrs ["s1"; "s2"])]))]));
     ("signal_processing", PDict (list_to_map
        [("sampling_frequency", PInt 10)]))]).

(** The mapping held by an entry, empty when the entry is missing or is no
    mapping. *)
Definition dict_of (v : option pyval) : gmap string pyval :=
  match v with
  | Some (PDict d) => d
  | _ => ∅
  end.

(** The configuration [m] with [oma.geometry.sensor_names] set to [v]. *)
Definition with_sensor_names (m : gmap string pyval) (v : pyval) : pyval :=
  let oma_config := dict_of (m !! "oma") in
  let geometry := dict_of (oma_config !! "geometry") in
  PDict (<["oma" := PDict (<["geometry" :=
           PDict (<["sensor_names" := v]> geometry)]> oma_config)]> m).

(** The configuration [m] with [signal_processing.sampling_frequency] set
    to [v]. *)
Definition with_sampling_frequency (m : gmap string pyval) (v : pyval)
    : pyval :=
  let signal_config := dict_of (m !! "signal_processing") in
  PDict (<["signal_processing" :=
           PDict (<["sampling_frequency" := v]> signal_config)]> m).

(** No [sensor_names] entry: a key is missing on the way to it. *)
Definition sensor_names_missing (m : gmap string pyval) : Prop :=
  m !! "oma" = None \/
  exists oma_config, m !! "oma" = Some (PDict oma_config) /\
    (oma_config !! "geometry" = None \/
     exists geometry, oma_config !! "geometry" = Some (PDict geometry) /\
       geometry !! "sensor_names" = None).

(** No [sampling_frequency] entry. *)
Definition sampling_frequency_missing (m : gmap string pyval) : Prop :=
  m !! "signal_processing" = None \/
  exists signal_config,
    m !! "signal_processing" = Some (PDict signal_config) /\
    signal_config !! "sampling_frequency" = None.

(** A configuration with a sampling frequency of zero and the default
    sensors. *)
Definition zero_rate_config : pyval :=
  PDict (list_to_map
    [("signal_processing", PDict (list_to_map
        [("sampling_frequency", PInt 0)]))]).

(** A configuration whose [oma] section is empty in the YAML source, which
    the loader delivers as [None]. *)
Definition empty_section_config : pyval :=
  PDict (list_to_map [("oma", PNone)]).

(** A computation that raises no exception other than [e]. *)
Definition raises_only {A} (e : py_error) (c : M A) : Prop :=
  forall w e' w', c w = Raise e' w' -> e' = e.

(** ** The command-line entry point *)

(** The truth value of a Python object in a condition. *)
Definition py_truthy (v : pyval) : bool :=
  match v with
  | PNone => false
  | PBool b => b
  | PInt z => negb (z =? 0)%Z
  | PStr s => negb (String.eqb s "")
  | PStrs l => negb (length l =? 0)%nat
  | PDict d => negb (size d =? 0)%nat
  end.

(** A value that pathlib accepts as a path: a string. *)
Definition as_str (v : pyval) : M string :=
  match v with
  | PStr s => ret s
  | _ => raise TypeError
  end.

(** [try: ... return 0  except Exception: ... return 1] around the
    generation (lines 285-310): any exception is caught and turned into the
    status 1; what the generation did before failing stays done. *)
Definition try_except_status {A} (c : M A) : M Z :=
  fun w => match c w with
           | Ok _ w' => Ok 0%Z w'
           | Raise _ w' => Ok 1%Z w'
           end.

Section Main.
(** pathlib is not modelled: [truediv a b] stands for [str(Path(a) / b)]
    and [path_of a] for [str(Path(a))]. *)
Variable truediv : string -> string -> string.
Variable path_of : string -> string.
Variable O : Oracle.

(** The output directory when none is given on the command line
    (lines 268-275); [cwd] is [Path.cwd()]. *)
Definition output_dir_from_config (config : pyval) (cwd : string) : M string :=
  paths <- py_get config "paths" (PDict ∅) ;;
  use_relative <- py_get paths "use_relative_paths" (PBool true) ;;
  if py_truthy use_relative then
    let project_root := cwd in
    input_data_dir <- py_get paths "input_data_dir" (PStr "data/raw") ;;
    input_data_dir <- as_str input_data_dir ;;
    ret (truediv project_root input_data_dir)
  else
    input_data_dir <- py_get paths "input_data_dir" (PStr "data/raw") ;;
    input_data_dir <- as_str input_data_dir ;;
    ret (path_of input_data_dir).

(** [main], from the parsed arguments and the loaded configuration on;
    console output is not modelled.  The result is the exit status. *)
Definition main (config : pyval) (cwd : string)
    (args_output_dir : option string) (args_n_segments : Z)
    (args_case_name : string) : M Z :=
  output_dir <- (if py_truthy (from_option PStr PNone args_output_dir)
                 then ret (default "" args_output_dir)
                 else output_dir_from_config config cwd) ;;
  try_except_status
    (generate_sample_dataset O config output_dir args_n_segments
       args_case_name).
End Main.

(** The sum of [1 / (j + 1)] over [m] consecutive mode indices from [j]. *)
Fixpoint harmonic_from (j : Z) (m : nat) : R :=
  match m with
  | O => 0%R
  | S m' => (1 / IZR (j + 1) + harmonic_from (j + 1) m')%R
  end.

(** Every sample is at most [b] in magnitude. *)
Definition bounded_by (b : R) (signal : list R) : Prop :=
  forall k x, signal !! k = Some x -> (Rabs x <= b)%R.

(** * Properties *)

(** [lia] is to reason about quotients and remainders as well. *)
Ltac Zify.zify_post_hook ::= Z.to_euclidean_division_equations.

(** ** Reasoning about the effect monad *)

Lemma bind_Ok {A B} (c : M A) (k : A -> M B) w b w' :
  (x <- c ;; k x) w = Ok b w' <->
  exists a w1, c w = Ok a w1 /\ k a w1 = Ok b w'.
Proof.
  unfold bind. destruct (c w) as [a w1|e w1]; split.
  - intros H. exists a, w1. auto.
  - intros (a' & w1' & [= -> ->] & H). exact H.
  - discriminate.
  - intros (a' & w1' & Hc & _). discriminate.
Qed.

Lemma bind_Ok_intro {A B} (c : M A) (k : A -> M B) w a w1 :
  c w = Ok a w1 -> (x <- c ;; k x) w = k a w1.
Proof. unfold bind. intros ->. reflexivity. Qed.

Lemma bind_Raise_intro {A B} (c : M A) (k : A -> M B) w e w1 :
  c w = Raise e w1 -> (x <- c ;; k x) w = Raise e w1.
Proof. unfold bind. intros ->. reflexivity. Qed.

Lemma ret_Ok {A} (a b : A) w w' : ret a w = Ok b w' <-> a = b /\ w = w'.
Proof. unfold ret. split; [intros [= -> ->] | intros [-> ->]]; auto. Qed.

Lemma raise_not_Ok {A} e (b : A) w w' : raise e w = Ok b w' -> False.
Proof. discriminate. Qed.

(** Breaks a successful run of a sequence into the successful runs of its
    parts. *)
Ltac inv_run :=
  repeat match goal with
    | H : bind _ _ _ = Ok _ _ |- _ =>
        let a := fresh "a" in let w := fresh "w" in let Hc := fresh "Hrun" in
        apply bind_Ok in H as (a & w & Hc & H)
    | H : ret _ _ = Ok _ _ |- _ => apply ret_Ok in H as [? ?]; subst
    | H : raise _ _ = Ok _ _ |- _ => destruct (raise_not_Ok _ _ _ _ H)
    | H : Raise _ _ = Ok _ _ |- _ => discriminate H
    | H : Ok _ _ = Ok _ _ |- _ => injection H as ? ?; subst
    end.

Lemma randn_Ok O r w w' :
  randn O w = Ok r w' <-> r = o_normal O (w_rng w) /\ w' = advance_rng 1 w.
Proof. unfold randn. split; [intros [= <- <-] | intros [-> ->]]; auto. Qed.

Lemma rand_Ok O u w w' :
  rand O w = Ok u w' <->
  u = unit_value (o_unit O (w_rng w)) /\ w' = advance_rng 1 w.
Proof. unfold rand. split; [intros [= <- <-] | intros [-> ->]]; auto. Qed.

Lemma randint_Ok O low high z w w' :
  randint O low high w = Ok z w' <->
  (low < high)%Z /\
  z = (low + Z.of_N (o_raw O (w_rng w)) mod (high - low))%Z /\
  w' = advance_rng 1 w.
Proof.
  unfold randint. destruct (Z.ltb_spec low high); split.
  - intros [= <- <-]. auto.
  - intros (_ & -> & ->). reflexivity.
  - discriminate.
  - intros (? & _). lia.
Qed.

Lemma randint_range O low high z w w' :
  randint O low high w = Ok z w' -> (low <= z < high)%Z.
Proof.
  intros (Hlt & -> & _)%randint_Ok.
  pose proof (Z.mod_pos_bound (Z.of_N (o_raw O (w_rng w))) (high - low)).
  lia.
Qed.

(** ** Truncated products [int(c * n)] *)

Lemma py_int_scale a b n :
  py_int ((a # b) * inject_Z n) = Z.quot (a * n) (Zpos b).
Proof. unfold py_int, Qmult, inject_Z. simpl. rewrite Pos.mul_1_r. reflexivity. Qed.

Lemma py_int_scale_nonneg a b n :
  (0 <= a)%Z -> (0 <= n)%Z ->
  py_int ((a # b) * inject_Z n) = (a * n / Zpos b)%Z.
Proof.
  intros Ha Hn. rewrite py_int_scale. apply Z.quot_div_nonneg; lia.
Qed.

(** ** Slices *)

Lemma length_iadd_slice_scalar a start stop c :
  length (iadd_slice_scalar a start stop c) = length a.
Proof.
  unfold iadd_slice_scalar. destruct (slice_bounds _ _ _).
  apply length_imap.
Qed.

Lemma iadd_slice_array_length a start stop v w a' w' :
  iadd_slice_array a start stop v w = Ok a' w' ->
  length a' = length a /\ w' = w.
Proof.
  unfold iadd_slice_array. destruct (slice_bounds _ _ _) as [lo hi].
  repeat case_bool_decide; intros Hr; inv_run.
  - split; [apply length_imap | reflexivity].
  - split; [apply length_iadd_slice_scalar | reflexivity].
Qed.

Lemma slice_bounds_inside n lo hi :
  (0 <= lo <= n)%Z -> (0 <= hi <= n)%Z ->
  slice_bounds n (Some lo) (Some hi) = (lo, hi).
Proof.
  intros Hlo Hhi. unfold slice_bounds, norm_index. simpl.
  destruct (Z.ltb_spec lo 0), (Z.ltb_spec hi 0); f_equal; lia.
Qed.

(** What [a[lo:hi] += c] does to each sample. *)
Lemma lookup_iadd_slice_scalar a lo hi c k :
  (0 <= lo <= Z.of_nat (length a))%Z -> (0 <= hi <= Z.of_nat (length a))%Z ->
  iadd_slice_scalar a (Some lo) (Some hi) c !! k =
  (fun x => if bool_decide (lo <= Z.of_nat k < hi)%Z then (x + c)%R else x)
    <$> a !! k.
Proof.
  intros Hlo Hhi. unfold iadd_slice_scalar.
  rewrite slice_bounds_inside by assumption.
  apply list_lookup_imap.
Qed.

(** ** The outlier region *)

Lemma outlier_range_Ok O n a b w w' :
  outlier_range O n w = Ok (a, b) w' ->
  (0 <= n)%Z /\
  (n / 10 <= a < 8 * n / 10)%Z /\
  (n / 100 <= b - a < 5 * n / 100)%Z /\
  b = (a + (b - a))%Z /\ (b <= n)%Z /\
  w' = advance_rng 2 w.
Proof.
  unfold outlier_range. intros H. inv_run.
  match goal with H : (_, _) = (_, _) |- _ => injection H as <- <- end.
  pose proof (randint_range _ _ _ _ _ _ Hrun) as Hs.
  pose proof (randint_range _ _ _ _ _ _ Hrun0) as Hd.
  apply randint_Ok in Hrun as (_ & _ & ->).
  apply randint_Ok in Hrun0 as (_ & _ & ->).
  rewrite !py_int_scale in Hs, Hd.
  assert (0 <= n)%Z as Hn.
  { destruct (Z.le_gt_cases 0 n) as [|Hneg]; [assumption|].
    exfalso.
    assert (Z.quot (8 * n) 10 <= Z.quot (1 * n) 10)%Z
      by (apply Z.quot_le_mono; lia).
    lia. }
  rewrite !Z.quot_div_nonneg in Hs, Hd by lia.
  rewrite !Z.mul_1_l in Hs, Hd.
  assert (10 * (8 * n / 10) <= 8 * n)%Z
    by (apply Z.mul_div_le; lia).
  assert (100 * (5 * n / 100) <= 5 * n)%Z
    by (apply Z.mul_div_le; lia).
  rewrite Z.min_l by lia.
  repeat split; try lia.
  unfold advance_rng. simpl. f_equal. lia.
Qed.

Lemma outlier_range_total O n w :
  (20 <= n)%Z -> exists a b, outlier_range O n w = Ok (a, b) (advance_rng 2 w).
Proof.
  intros Hn. unfold outlier_range.
  assert (n / 10 < 8 * n / 10)%Z as H1.
  { apply Z.div_lt_upper_bound; [lia|].
    pose proof (Z.mul_succ_div_gt (8 * n) 10). lia. }
  assert (n / 100 < 5 * n / 100)%Z as H2.
  { apply Z.div_lt_upper_bound; [lia|].
    pose proof (Z.mul_succ_div_gt (5 * n) 100). lia. }
  rewrite !py_int_scale_nonneg by lia. rewrite Z.mul_1_l.
  eexists _, _.
  erewrite bind_Ok_intro
    by (apply randint_Ok; split; [exact H1 | split; reflexivity]).
  erewrite bind_Ok_intro
    by (apply randint_Ok; split; [exact H2 | split; reflexivity]).
  unfold ret, advance_rng. simpl. do 2 f_equal. lia.
Qed.

(** C1 (amended).  When the outlier injection triggers on a signal of [n]
    samples, the shifted region [[a, b)] starts at an index of
    [[int(0.1 n), int(0.8 n))] and its length is in
    [[int(0.01 n), int(0.05 n))]; it therefore ends before 85% of the span,
    not before 80%.  The signal keeps its length, every sample of the region
    is shifted by one and the same constant, and every other sample is left
    as it was.  With at least 20 samples the step always completes. *)
Theorem outlier_shift_region O n signal w :
  Z.of_nat (length signal) = n ->
  (forall signal' w', shift_outlier O n signal w = Ok signal' w' ->
     exists a b c,
       outlier_range O n w = Ok (a, b) (advance_rng 2 w) /\
       (n / 10 <= a < 8 * n / 10)%Z /\
       (n / 100 <= b - a < 5 * n / 100)%Z /\
       (100 * b < 85 * n)%Z /\
       length signal' = length signal /\
       forall k x, signal !! k = Some x ->
         signal' !! k =
         Some (if bool_decide (a <= Z.of_nat k < b)%Z then (x + c)%R else x)) /\
  ((20 <= n)%Z ->
   exists signal' w', shift_outlier O n signal w = Ok signal' w').
Proof.
  intros <-. split.
  - intros signal' w' H. unfold shift_outlier in H. inv_run.
    destruct a as [a b].
    pose proof (outlier_range_Ok _ _ _ _ _ _ Hrun) as (Hn & Ha & Hd & _ & Hb & ->).
    inv_run. apply randn_Ok in Hrun0 as [-> ->].
    exists a, b, (0.3 * o_normal O (w_rng (advance_rng 2 w)))%R.
    remember (Z.of_nat (length signal)) as n eqn:En.
    assert (10 * (8 * n / 10) <= 8 * n)%Z by (apply Z.mul_div_le; lia).
    assert (100 * (5 * n / 100) <= 5 * n)%Z by (apply Z.mul_div_le; lia).
    split; [assumption|]. split; [assumption|]. split; [assumption|].
    split; [lia|]. split; [apply length_iadd_slice_scalar|].
    intros k x Hk.
    rewrite lookup_iadd_slice_scalar by lia.
    rewrite Hk. reflexivity.
  - intros Hn. unfold shift_outlier.
    destruct (outlier_range_total O _ w Hn) as (a & b & Hr).
    eexists _, _. erewrite bind_Ok_intro by exact Hr. simpl.
    erewrite bind_Ok_intro by (apply randn_Ok; split; reflexivity).
    reflexivity.
Qed.

Lemma outlier_shift_region_witness :
  exists signal' w',
    shift_outlier still_oracle 600 (zeros 600) fresh_world = Ok signal' w'.
Proof.
  apply (outlier_shift_region still_oracle 600 (zeros 600) fresh_world).
  - unfold zeros. rewrite length_replicate. reflexivity.
  - lia.
Defined.

(** C1, as stated, fails: with 600 samples the region can be [[479, 508)],
    and sample 500, beyond 80% of the span, is shifted. *)
Lemma outlier_region_beyond_80_percent :
  exists signal' w' x,
    outlier_range late_outlier_oracle 600 fresh_world
      = Ok (479, 508)%Z (advance_rng 2 fresh_world) /\
    shift_outlier late_outlier_oracle 600 (zeros 600) fresh_world
      = Ok signal' w' /\
    zeros 600 !! 500%nat = Some 0%R /\
    signal' !! 500%nat = Some x /\ x <> 0%R /\
    (8 * 600 / 10 < 500)%Z.
Proof.
  assert (outlier_range late_outlier_oracle 600 fresh_world
          = Ok (479, 508)%Z (advance_rng 2 fresh_world)) as Hr
    by (vm_compute; reflexivity).
  assert (zeros 600 !! 500%nat = Some 0%R) as Hz
    by (apply lookup_replicate_2; simpl; lia).
  eexists _, _, (0 + 0.3 * 1)%R.
  split; [exact Hr|]. split.
  - unfold shift_outlier. erewrite bind_Ok_intro by exact Hr. simpl.
    erewrite bind_Ok_intro by (apply randn_Ok; split; reflexivity).
    reflexivity.
  - split; [exact Hz|]. split.
    + rewrite lookup_iadd_slice_scalar
        by (unfold zeros; rewrite length_replicate; lia).
      rewrite Hz. reflexivity.
    + split; [lra | reflexivity].
Qed.

(** ** Computations that write no file *)

Lemma keeps_files_ret {A} (a : A) : keeps_files (ret a).
Proof. intros w b w' H. inv_run. reflexivity. Qed.

Lemma keeps_files_raise {A} e : keeps_files (@raise A e).
Proof. intros w b w' H. inv_run. Qed.

Lemma keeps_files_bind {A B} (c : M A) (k : A -> M B) :
  keeps_files c -> (forall a, keeps_files (k a)) ->
  keeps_files (x <- c ;; k x).
Proof.
  intros Hc Hk w b w' H. inv_run.
  rewrite (Hk _ _ _ _ H). eapply Hc. eassumption.
Qed.

Lemma keeps_files_for_enumerate {A S} (body : Z -> A -> S -> M S) l :
  (forall i x s, keeps_files (body i x s)) ->
  forall i s, keeps_files (for_enumerate body i l s).
Proof.
  intros Hb. induction l as [|x l IH]; intros i s; simpl.
  - apply keeps_files_ret.
  - apply keeps_files_bind; [apply Hb | intros s'; apply IH].
Qed.

Lemma keeps_files_randn O : keeps_files (randn O).
Proof. intros w a w' [_ ->]%randn_Ok. reflexivity. Qed.

Lemma keeps_files_randn_array O n : keeps_files (randn_array O n).
Proof. intros w a w' [= _ <-]. reflexivity. Qed.

Lemma keeps_files_rand O : keeps_files (rand O).
Proof. intros w a w' [_ ->]%rand_Ok. reflexivity. Qed.

Lemma keeps_files_uniform O low high : keeps_files (uniform O low high).
Proof.
  apply keeps_files_bind; [apply keeps_files_rand|].
  intros u. apply keeps_files_ret.
Qed.

Lemma keeps_files_randint O low high : keeps_files (randint O low high).
Proof. intros w a w' (_ & _ & ->)%randint_Ok. reflexivity. Qed.

Lemma keeps_files_choice_quality O : keeps_files (choice_quality O).
Proof.
  apply keeps_files_bind; [apply keeps_files_rand|].
  intros u. apply keeps_files_ret.
Qed.

Lemma keeps_files_datetime_now O : keeps_files (datetime_now O).
Proof. intros w a w' [= _ <-]. reflexivity. Qed.

Lemma keeps_files_linspace start stop num :
  keeps_files (linspace start stop num).
Proof.
  unfold linspace. repeat case_match;
    auto using @keeps_files_ret, @keeps_files_raise.
Qed.

Lemma keeps_files_iadd_slice_array a start stop v :
  keeps_files (iadd_slice_array a start stop v).
Proof. intros w a' w' [_ ->]%iadd_slice_array_length. reflexivity. Qed.

Lemma keeps_files_iadd_array a v : keeps_files (iadd_array a v).
Proof. apply keeps_files_iadd_slice_array. Qed.

Lemma keeps_files_date_range_freq start periods fs :
  keeps_files (date_range_freq start periods fs).
Proof.
  unfold date_range_freq. repeat case_match;
    auto using @keeps_files_ret, @keeps_files_raise.
Qed.

Lemma keeps_files_date_range_periods start end_ periods :
  keeps_files (date_range_periods start end_ periods).
Proof.
  unfold date_range_periods. repeat case_match;
    auto using @keeps_files_ret, @keeps_files_raise.
Qed.

Lemma keeps_files_DataFrame data index : keeps_files (DataFrame data index).
Proof.
  unfold DataFrame. case_match;
    auto using @keeps_files_ret, @keeps_files_raise.
Qed.

Lemma keeps_files_set_index df new_index : keeps_files (set_index df new_index).
Proof.
  unfold set_index. case_match;
    auto using @keeps_files_ret, @keeps_files_raise.
Qed.

Lemma keeps_files_datetime_add dt delta : keeps_files (datetime_add dt delta).
Proof.
  unfold datetime_add. case_match;
    auto using @keeps_files_ret, @keeps_files_raise.
Qed.

Lemma keeps_files_py_get d key fallback : keeps_files (py_get d key fallback).
Proof.
  unfold py_get. case_match;
    auto using @keeps_files_ret, @keeps_files_raise.
Qed.

Create HintDb frame discriminated.
#[local] Hint Resolve keeps_files_ret keeps_files_raise keeps_files_randn
  keeps_files_randn_array keeps_files_rand keeps_files_uniform
  keeps_files_randint keeps_files_choice_quality keeps_files_datetime_now
  keeps_files_linspace keeps_files_iadd_slice_array keeps_files_iadd_array
  keeps_files_date_range_freq keeps_files_date_range_periods
  keeps_files_DataFrame keeps_files_set_index keeps_files_datetime_add
  keeps_files_py_get : frame.

(** Proves [keeps_files] for a sequence of steps known to the [frame]
    database. *)
Ltac frame_steps :=
  repeat first
    [ progress eauto with frame
    | apply keeps_files_bind; [|intros ?]
    | apply keeps_files_for_enumerate; intros ? ? ?
    | match goal with
      | |- keeps_files (if ?b then _ else _) => destruct b
      | |- keeps_files (match ?x with _ => _ end) => destruct x
      end ].

Lemma keeps_files_sensor_signal O names i n t freqs noise_level trend :
  keeps_files (sensor_signal O names i n t freqs noise_level trend).
Proof.
  unfold sensor_signal, modal_contribution, add_trend, add_noise,
    inject_outlier, shift_outlier, outlier_range, inject_edge_artifacts,
    recenter.
  frame_steps.
Qed.

Lemma keeps_files_generate_synthetic_acceleration_data
    O names duration fs freqs noise_level trend :
  keeps_files
    (generate_synthetic_acceleration_data O names duration fs freqs
       noise_level trend).
Proof.
  unfold generate_synthetic_acceleration_data.
  pose proof (keeps_files_sensor_signal O).
  frame_steps.
Qed.

(** ** Partial-correctness rules *)

Lemma ensures_ret {A} (a : A) (Q : A -> Prop) : Q a -> ensures (ret a) Q.
Proof. intros HQ w b w' H. inv_run. exact HQ. Qed.

Lemma ensures_raise {A} e (Q : A -> Prop) : ensures (raise e) Q.
Proof. intros w b w' H. inv_run. Qed.

Lemma ensures_bind {A B} (c : M A) (k : A -> M B) (P : A -> Prop) Q :
  ensures c P -> (forall a, P a -> ensures (k a) Q) ->
  ensures (x <- c ;; k x) Q.
Proof. intros Hc Hk w b w' H. inv_run. eapply Hk; eauto. Qed.

Lemma ensures_weaken {A} (c : M A) (P Q : A -> Prop) :
  ensures c P -> (forall a, P a -> Q a) -> ensures c Q.
Proof. intros Hc HPQ w a w' H. eauto. Qed.

Lemma ensures_True {A} (c : M A) : ensures c (fun _ => True).
Proof. intros w a w' _. exact I. Qed.

Lemma ensures_for_enumerate {A S} (body : Z -> A -> S -> M S)
    (I : S -> Prop) l :
  (forall i x s, I s -> ensures (body i x s) I) ->
  forall i s, I s -> ensures (for_enumerate body i l s) I.
Proof.
  intros Hb. induction l as [|x l IH]; intros i s Hs; simpl.
  - apply ensures_ret, Hs.
  - eapply ensures_bind; [apply Hb, Hs | intros s' Hs'; apply IH, Hs'].
Qed.

(** ** Lengths of the arrays *)

Lemma linspace_Ok start stop num l w w' :
  linspace start stop num w = Ok l w' ->
  (0 <= num)%Z /\ length l = Z.to_nat num /\ w' = w.
Proof.
  unfold linspace.
  destruct (Z.ltb_spec num 0); [intros H'; inv_run|].
  destruct (Z.eqb_spec num 1) as [->|]; intros H'; inv_run.
  - auto.
  - rewrite length_map, length_seqZ. auto.
Qed.

Lemma linspace_total start stop num w :
  (0 <= num)%Z -> exists l, linspace start stop num w = Ok l w.
Proof.
  intros Hn. unfold linspace.
  destruct (Z.ltb_spec num 0); [lia|].
  destruct (num =? 1)%Z; eexists; reflexivity.
Qed.

Lemma length_zeros n : length (zeros n) = Z.to_nat n.
Proof. apply length_replicate. Qed.

Lemma ensures_iadd_slice_array a start stop v :
  ensures (iadd_slice_array a start stop v) (fun a' => length a' = length a).
Proof. intros w a' w' [Hl _]%iadd_slice_array_length. exact Hl. Qed.

Lemma ensures_iadd_array a v :
  ensures (iadd_array a v) (fun a' => length a' = length a).
Proof. apply ensures_iadd_slice_array. Qed.

Lemma iadd_array_total a v w :
  length v = length a -> exists a', iadd_array a v w = Ok a' w.
Proof.
  intros Hl. unfold iadd_array, iadd_slice_array. simpl.
  rewrite bool_decide_true by lia. eexists. reflexivity.
Qed.

Lemma ensures_modal_contribution O names i t j freq signal :
  ensures (modal_contribution O names i t j freq signal)
          (fun s => length s = length signal).
Proof.
  unfold modal_contribution.
  eapply ensures_bind; [apply ensures_True | intros r _].
  eapply ensures_bind; [apply ensures_True | intros phase _].
  apply ensures_iadd_array.
Qed.

Lemma ensures_add_trend O trend t signal :
  ensures (add_trend O trend t signal) (fun s => length s = length signal).
Proof.
  unfold add_trend.
  eapply ensures_bind; [apply ensures_True | intros r _].
  eapply ensures_bind; [apply ensures_True | intros phase _].
  apply ensures_iadd_array.
Qed.

Lemma ensures_add_noise O noise_level n signal :
  ensures (add_noise O noise_level n signal)
          (fun s => length s = length signal).
Proof.
  unfold add_noise.
  eapply ensures_bind; [apply ensures_True | intros z _].
  apply ensures_iadd_array.
Qed.

Lemma ensures_inject_outlier O n signal :
  ensures (inject_outlier O n signal) (fun s => length s = length signal).
Proof.
  unfold inject_outlier, shift_outlier.
  eapply ensures_bind; [apply ensures_True | intros u _].
  destruct (Qltb u 0.1); [|apply ensures_ret; reflexivity].
  eapply ensures_bind; [apply ensures_True | intros [a b] _].
  eapply ensures_bind; [apply ensures_True | intros r _].
  apply ensures_ret, length_iadd_slice_scalar.
Qed.

Lemma ensures_inject_edge_artifacts O n signal :
  ensures (inject_edge_artifacts O n signal)
          (fun s => length s = length signal).
Proof.
  unfold inject_edge_artifacts.
  eapply ensures_bind; [apply ensures_True | intros u _].
  destruct (Qltb u 0.2); [|apply ensures_ret; reflexivity].
  eapply ensures_bind; [apply ensures_True | intros u1 _].
  eapply ensures_bind with (P := fun s => length s = length signal).
  - destruct (Qltb u1 0.5); [|apply ensures_ret; reflexivity].
    eapply ensures_bind; [apply ensures_True | intros ramp _].
    eapply ensures_bind; [apply ensures_True | intros r _].
    apply ensures_iadd_slice_array.
  - intros s Hs.
    eapply ensures_bind; [apply ensures_True | intros u2 _].
    destruct (Qltb u2 0.5); [|apply ensures_ret; exact Hs].
    eapply ensures_bind; [apply ensures_True | intros ramp _].
    eapply ensures_bind; [apply ensures_True | intros r _].
    eapply ensures_weaken; [apply ensures_iadd_slice_array|].
    intros s' Hs'. congruence.
Qed.

(** ** Uniform deviates and the re-centering *)

Lemma unit_value_range d : (0 <= Q2R (unit_value d) < 1)%R.
Proof.
  destruct d as [num den]. unfold unit_value, Q2R. simpl.
  pose proof (N.mod_lt num (Npos den) ltac:(discriminate)) as Hlt.
  set (z := Z.of_N (num mod Npos den)).
  assert (0 <= z < Zpos den)%Z as [Hz0 Hz1] by (subst z; lia).
  apply IZR_le in Hz0. apply IZR_lt in Hz1.
  assert (0 < IZR (Zpos den))%R as Hden by (apply IZR_lt; lia).
  split.
  - apply Rmult_le_pos; [exact Hz0 | left; apply Rinv_0_lt_compat, Hden].
  - apply Rmult_lt_reg_r with (IZR (Zpos den)); [exact Hden|].
    rewrite Rmult_assoc, Rinv_l by lra. lra.
Qed.

Lemma ensures_uniform O low high :
  (low <= high)%R ->
  ensures (uniform O low high) (fun x => (low <= x <= high)%R).
Proof.
  intros Hle w x w' H. unfold uniform in H. inv_run.
  pose proof (unit_value_range (o_unit O (w_rng w))) as Hu.
  apply rand_Ok in Hrun as [-> _]. nra.
Qed.

Lemma sum_R_shift c l :
  sum_R (map (fun x => (x + c)%R) l) = (sum_R l + INR (length l) * c)%R.
Proof.
  induction l as [|x l IH].
  - simpl. lra.
  - change (sum_R (map (fun x => (x + c)%R) (x :: l)))
      with (x + c + sum_R (map (fun x => (x + c)%R) l))%R.
    change (sum_R (x :: l)) with (x + sum_R l)%R.
    rewrite IH. change (length (x :: l)) with (S (length l)).
    rewrite S_INR. lra.
Qed.

(** Re-centering adds one and the same constant to every sample. *)
Lemma shift_mean_adds_constant signal target :
  shift_mean signal target
  = map (fun x => (x + (target - mean signal))%R) signal.
Proof.
  unfold shift_mean. apply map_ext. intros x. lra.
Qed.

Lemma length_shift_mean signal target :
  length (shift_mean signal target) = length signal.
Proof. apply length_map. Qed.

Lemma mean_shift_mean signal target :
  (0 < length signal)%nat -> mean (shift_mean signal target) = target.
Proof.
  intros Hlen. rewrite shift_mean_adds_constant. unfold mean at 1.
  rewrite sum_R_shift, length_map. unfold mean.
  assert (0 < INR (length signal))%R by (apply lt_0_INR; lia).
  field. lra.
Qed.

Lemma ensures_recenter O signal :
  ensures (recenter O signal)
          (fun col => exists target,
             col = shift_mean signal target /\ in_qc_band target).
Proof.
  unfold recenter.
  eapply ensures_bind; [apply ensures_uniform; lra|].
  intros target Ht. apply ensures_ret. exists target. split; [reflexivity|].
  exact Ht.
Qed.

Lemma ensures_sensor_signal O names i n t freqs noise_level trend :
  ensures (sensor_signal O names i n t freqs noise_level trend)
          (recentered_column n).
Proof.
  unfold sensor_signal.
  eapply ensures_bind with (P := fun s => length s = Z.to_nat n).
  { apply ensures_for_enumerate; [|apply length_zeros].
    intros j freq s Hs. eapply ensures_weaken;
      [apply ensures_modal_contribution | intros s' Hs'; congruence]. }
  intros s1 H1. eapply ensures_bind with (P := fun s => length s = Z.to_nat n).
  { eapply ensures_weaken;
      [apply ensures_add_trend | intros s' Hs'; congruence]. }
  intros s2 H2. eapply ensures_bind with (P := fun s => length s = Z.to_nat n).
  { eapply ensures_weaken;
      [apply ensures_add_noise | intros s' Hs'; congruence]. }
  intros s3 H3. eapply ensures_bind with (P := fun s => length s = Z.to_nat n).
  { eapply ensures_weaken;
      [apply ensures_inject_outlier | intros s' Hs'; congruence]. }
  intros s4 H4. eapply ensures_bind with (P := fun s => length s = Z.to_nat n).
  { eapply ensures_weaken;
      [apply ensures_inject_edge_artifacts | intros s' Hs'; congruence]. }
  intros s5 H5. eapply ensures_weaken; [apply ensures_recenter|].
  intros col (target & -> & Hband). exists s5, target. auto.
Qed.

Lemma length_recentered_column n column :
  recentered_column n column -> length column = Z.to_nat n.
Proof.
  intros (signal & target & Hlen & -> & _).
  rewrite length_shift_mean. exact Hlen.
Qed.

Lemma mean_recentered_column n column :
  (0 < n)%Z -> recentered_column n column -> in_qc_band (mean column).
Proof.
  intros Hn (signal & target & Hlen & -> & Hband).
  rewrite mean_shift_mean by lia. exact Hband.
Qed.

(** ** The dictionary of columns *)

Lemma Forall_dict_set {A} (P : string * A -> Prop) key value d :
  (forall k, P (k, value)) -> Forall P d -> Forall P (dict_set key value d).
Proof.
  intros Hv. induction 1 as [|[k v] d Hkv Hd IH]; simpl.
  - constructor; [apply Hv | constructor].
  - case_bool_decide; constructor; auto.
Qed.

Lemma elem_of_keys_dict_set {A} key (value : A) d k :
  k ∈ map fst (dict_set key value d) <-> k = key \/ k ∈ map fst d.
Proof.
  induction d as [|[k' v'] d IH]; simpl.
  - set_solver.
  - case_bool_decide; simpl; rewrite !elem_of_cons; [subst|rewrite IH];
      tauto.
Qed.

Lemma NoDup_keys_dict_set {A} key (value : A) d :
  NoDup (map fst d) -> NoDup (map fst (dict_set key value d)).
Proof.
  induction d as [|[k' v'] d IH]; simpl; intros Hnd.
  - apply NoDup_singleton.
  - apply NoDup_cons in Hnd as [Hk' Hd].
    case_bool_decide; simpl; apply NoDup_cons.
    + auto.
    + split; [|auto]. rewrite elem_of_keys_dict_set. intros [->|?]; auto.
Qed.

(** ** What a completed synthesis returns *)

Lemma datetime_now_Ok O t w w' :
  datetime_now O w = Ok t w' <->
  t = o_now O (w_clk w) /\ w' = World (w_rng w) (S (w_clk w)) (w_files w).
Proof.
  unfold datetime_now. split; [intros [= <- <-] | intros [-> ->]]; auto.
Qed.

Lemma date_range_freq_Ok start periods fs idx w w' :
  date_range_freq start periods fs w = Ok idx w' <->
  fs <> 0%Z /\ (NS_PER_SECOND mod fs = 0)%Z /\ (0 <= periods)%Z /\
  idx = map (fun k => (timestamp_ns start + k * (NS_PER_SECOND / fs))%Z)
            (seqZ 0 periods) /\
  w' = w.
Proof.
  unfold date_range_freq.
  destruct (Z.eqb_spec fs 0).
  { split; [intros Hr; inv_run | intros (? & _); contradiction]. }
  destruct (Z.eqb_spec (NS_PER_SECOND mod fs) 0); simpl.
  2: { split; [intros Hr; inv_run | intros (_ & ? & _); contradiction]. }
  destruct (Z.ltb_spec periods 0).
  { split; [intros Hr; inv_run | intros (_ & _ & ? & _); lia]. }
  split.
  - intros Hr. inv_run. auto.
  - intros (_ & _ & _ & -> & ->). reflexivity.
Qed.

Lemma DataFrame_Ok data index df w w' :
  DataFrame data index w = Ok df w' <->
  Forall (fun kv => length (snd kv) = length index) data /\
  df = DataFrame_ index data /\ w' = w.
Proof.
  unfold DataFrame.
  destruct (forallb _ data) eqn:Hall.
  - rewrite forallb_forall in Hall.
    split.
    + intros Hr. inv_run. split; [|auto].
      apply Forall_forall. intros kv Hkv.
      apply Nat.eqb_eq, Hall, list_elem_of_In, Hkv.
    + intros (_ & -> & ->). reflexivity.
  - split; [intros Hr; inv_run|].
    intros (Hf & _). exfalso.
    assert (forallb (fun kv => length (snd kv) =? length index)%nat data
            = true) as Ht; [|congruence].
    apply forallb_forall. intros kv Hin.
    rewrite Forall_forall in Hf. apply Nat.eqb_eq, Hf.
    apply list_elem_of_In, Hin.
Qed.

Lemma sensors_loop_Ok O names n t freqs noise_level trend l :
  forall i data w data' w',
    for_enumerate
      (fun i sensor data =>
         signal <- sensor_signal O names i n t freqs noise_level trend ;;
         ret (dict_set sensor signal data))
      i l data w = Ok data' w' ->
    (Forall (fun kv => recentered_column n (snd kv)) data ->
     Forall (fun kv => recentered_column n (snd kv)) data') /\
    (forall s, s ∈ map fst data' <-> s ∈ map fst data \/ s ∈ l) /\
    (NoDup (map fst data) -> NoDup (map fst data')).
Proof.
  induction l as [|x l IH]; intros i data w data' w' H; simpl in H.
  - inv_run. split; [auto|]. split; [|auto].
    intros s. rewrite elem_of_nil. tauto.
  - inv_run.
    apply ensures_sensor_signal in Hrun0.
    destruct (IH _ _ _ _ _ H) as (IH1 & IH2 & IH3).
    split; [|split].
    + intros Hd. apply IH1, Forall_dict_set; auto.
    + intros s. rewrite IH2, elem_of_keys_dict_set, elem_of_cons. tauto.
    + intros Hd. apply IH3, NoDup_keys_dict_set, Hd.
Qed.

Lemma generate_synthetic_acceleration_data_Ok
    O names duration fs freqs noise_level trend w df w' :
  generate_synthetic_acceleration_data O names duration fs freqs
    noise_level trend w = Ok df w' ->
  let n := (duration * 60 * fs)%Z in
  (0 <= n)%Z /\ fs <> 0%Z /\ (NS_PER_SECOND mod fs = 0)%Z /\
  wt_index df
  = map (fun k => (timestamp_ns (replace_second_microsecond
                                   (o_now O (w_clk w)))
                   + k * (NS_PER_SECOND / fs))%Z) (seqZ 0 n) /\
  Forall (fun kv => recentered_column n (snd kv)) (wt_columns df) /\
  (forall s, s ∈ column_names df <-> s ∈ names) /\
  NoDup (column_names df) /\
  w_files w' = w_files w.
Proof.
  intros H n.
  pose proof (keeps_files_generate_synthetic_acceleration_data
                _ _ _ _ _ _ _ _ _ _ H) as Hfiles.
  unfold generate_synthetic_acceleration_data in H. fold n in H. inv_run.
  apply linspace_Ok in Hrun as (Hn & _ & ->).
  apply datetime_now_Ok in Hrun0 as [-> ->].
  apply date_range_freq_Ok in Hrun1 as (Hfs & Hdiv & _ & -> & ->).
  apply sensors_loop_Ok in Hrun2 as (Hcols & Hkeys & Hnodup).
  apply DataFrame_Ok in H as (_ & -> & ->).
  unfold column_names. simpl.
  split; [exact Hn|]. split; [exact Hfs|]. split; [exact Hdiv|].
  split; [reflexivity|]. split; [apply Hcols; constructor|].
  split; [|split; [apply Hnodup; constructor | exact Hfiles]].
  intros s. rewrite Hkeys. simpl. rewrite elem_of_nil. tauto.
Qed.

(** ** Total-correctness rules *)

Lemma returns_ret {A} (a : A) w (Q : A -> world -> Prop) :
  Q a w -> returns (ret a) w Q.
Proof. intros HQ. exists a, w. auto. Qed.

Lemma returns_bind {A B} (c : M A) (k : A -> M B) w Q :
  returns c w (fun a w1 => returns (k a) w1 Q) ->
  returns (x <- c ;; k x) w Q.
Proof.
  intros (a & w1 & Hc & b & w2 & Hk & HQ).
  exists b, w2. split; [|exact HQ].
  rewrite (bind_Ok_intro _ _ _ _ _ Hc). exact Hk.
Qed.

Lemma returns_weaken {A} (c : M A) w (P Q : A -> world -> Prop) :
  returns c w P -> (forall a w', P a w' -> Q a w') -> returns c w Q.
Proof. intros (a & w' & Hc & HP) HPQ. exists a, w'. auto. Qed.

Lemma returns_ensures {A} (c : M A) w (P : A -> Prop) Q :
  ensures c P -> returns c w Q -> returns c w (fun a w' => P a /\ Q a w').
Proof. intros Hc (a & w' & Hr & HQ). exists a, w'. eauto. Qed.

Lemma returns_for_enumerate {A S} (body : Z -> A -> S -> M S)
    (I : S -> Prop) l :
  (forall i x s w, I s -> returns (body i x s) w (fun s' _ => I s')) ->
  forall i s w, I s -> returns (for_enumerate body i l s) w (fun s' _ => I s').
Proof.
  intros Hb. induction l as [|x l IH]; intros i s w Hs; simpl.
  - apply returns_ret, Hs.
  - apply returns_bind. eapply returns_weaken; [apply Hb, Hs|].
    intros s' w' Hs'. apply IH, Hs'.
Qed.

Lemma returns_randn O w Q :
  Q (o_normal O (w_rng w)) (advance_rng 1 w) -> returns (randn O) w Q.
Proof. intros HQ. eexists _, _. split; [reflexivity | exact HQ]. Qed.

Lemma returns_rand O w Q :
  Q (unit_value (o_unit O (w_rng w))) (advance_rng 1 w) ->
  returns (rand O) w Q.
Proof. intros HQ. eexists _, _. split; [reflexivity | exact HQ]. Qed.

Lemma returns_uniform O low high w (Q : R -> world -> Prop) :
  (forall x, Q x (advance_rng 1 w)) -> returns (uniform O low high) w Q.
Proof.
  intros HQ. unfold uniform. apply returns_bind, returns_rand, returns_ret, HQ.
Qed.

Lemma returns_linspace start stop num w (Q : list R -> world -> Prop) :
  (0 <= num)%Z -> (forall l, length l = Z.to_nat num -> Q l w) ->
  returns (linspace start stop num) w Q.
Proof.
  intros Hn HQ. destruct (linspace_total start stop num w Hn) as [l Hl].
  exists l, w. split; [exact Hl|].
  apply HQ. apply linspace_Ok in Hl as (_ & Hlen & _). exact Hlen.
Qed.

Lemma returns_iadd_slice_array a start stop v w (Q : list R -> world -> Prop) :
  length v
  = Z.to_nat (snd (slice_bounds (Z.of_nat (length a)) start stop)
              - fst (slice_bounds (Z.of_nat (length a)) start stop)) ->
  (forall a', length a' = length a -> Q a' w) ->
  returns (iadd_slice_array a start stop v) w Q.
Proof.
  intros Hlen HQ. unfold iadd_slice_array.
  destruct (slice_bounds _ start stop) as [lo hi]. simpl in Hlen.
  rewrite bool_decide_true by exact Hlen.
  apply returns_ret, HQ, length_imap.
Qed.

Lemma returns_iadd_array a v w (Q : list R -> world -> Prop) :
  length v = length a ->
  (forall a', length a' = length a -> Q a' w) ->
  returns (iadd_array a v) w Q.
Proof.
  intros Hlen HQ. apply returns_iadd_slice_array; [|exact HQ].
  simpl. lia.
Qed.

(** ** The synthesizer completes *)

Lemma returns_modal_contribution O names i t j freq signal w :
  length signal = length t ->
  returns (modal_contribution O names i t j freq signal) w
          (fun s _ => length s = length signal).
Proof.
  intros Hlen. unfold modal_contribution.
  apply returns_bind, returns_randn, returns_bind, returns_uniform.
  intros phase. apply returns_iadd_array; [|auto].
  rewrite length_map. auto.
Qed.

Lemma returns_add_trend O trend t signal w :
  length signal = length t ->
  returns (add_trend O trend t signal) w
          (fun s _ => length s = length signal).
Proof.
  intros Hlen. unfold add_trend.
  apply returns_bind, returns_randn, returns_bind, returns_uniform.
  intros phase. apply returns_iadd_array; [|auto].
  rewrite length_map. auto.
Qed.

Lemma returns_add_noise O noise_level n signal w :
  length signal = Z.to_nat n ->
  returns (add_noise O noise_level n signal) w
          (fun s _ => length s = length signal).
Proof.
  intros Hlen. unfold add_noise.
  apply returns_bind. eexists _, _. split; [reflexivity|].
  apply returns_iadd_array; [|auto].
  rewrite !length_map, length_seq. auto.
Qed.

Lemma returns_inject_outlier O n signal w :
  (20 <= n)%Z ->
  returns (inject_outlier O n signal) w
          (fun s _ => length s = length signal).
Proof.
  intros Hn. unfold inject_outlier.
  apply returns_bind, returns_rand.
  destruct (Qltb _ 0.1); [|apply returns_ret; reflexivity].
  unfold shift_outlier.
  destruct (outlier_range_total O n (advance_rng 1 w) Hn) as (a & b & Hr).
  apply returns_bind. eexists _, _. split; [exact Hr|].
  apply returns_bind, returns_randn, returns_ret, length_iadd_slice_scalar.
Qed.

Lemma returns_inject_edge_artifacts O n signal w :
  (50 <= n)%Z -> length signal = Z.to_nat n ->
  returns (inject_edge_artifacts O n signal) w
          (fun s _ => length s = length signal).
Proof.
  intros Hn Hlen. unfold inject_edge_artifacts.
  rewrite py_int_scale_nonneg by lia.
  assert (1 <= 2 * n / 100 <= n)%Z as Hedge by lia.
  set (edge := (2 * n / 100)%Z) in *.
  apply returns_bind, returns_rand.
  destruct (Qltb _ 0.2); [|apply returns_ret; reflexivity].
  apply returns_bind, returns_rand.
  apply returns_bind.
  apply returns_weaken
    with (P := fun s (_ : world) => length s = length signal).
  { destruct (Qltb _ 0.5); [|apply returns_ret; reflexivity].
    apply returns_bind, returns_linspace; [lia|]. intros ramp Hramp.
    apply returns_bind, returns_randn.
    apply returns_iadd_slice_array; [|auto].
    rewrite length_map, Hramp. unfold slice_bounds, norm_index. simpl.
    destruct (Z.ltb_spec edge 0); lia. }
  intros s w1 Hs.
  apply returns_bind, returns_rand.
  destruct (Qltb _ 0.5); [|apply returns_ret; exact Hs].
  apply returns_bind, returns_linspace; [lia|]. intros ramp Hramp.
  apply returns_bind, returns_randn.
  apply returns_iadd_slice_array; [|intros; congruence].
  rewrite length_map, Hramp. unfold slice_bounds, norm_index. simpl.
  destruct (Z.ltb_spec (- edge) 0); lia.
Qed.

Lemma returns_sensor_signal O names i n t freqs noise_level trend w :
  (50 <= n)%Z -> length t = Z.to_nat n ->
  returns (sensor_signal O names i n t freqs noise_level trend) w
          (fun _ _ => True).
Proof.
  intros Hn Ht. unfold sensor_signal.
  apply returns_bind.
  eapply returns_weaken.
  { apply returns_for_enumerate
      with (I := fun s => length s = Z.to_nat n); [|apply length_zeros].
    intros j freq s w0 Hs. eapply returns_weaken;
      [apply returns_modal_contribution; congruence|].
    simpl. intros; congruence. }
  simpl. intros s1 w1 H1. apply returns_bind.
  eapply returns_weaken; [apply returns_add_trend; congruence|].
  simpl. intros s2 w2 H2. apply returns_bind.
  eapply returns_weaken; [apply returns_add_noise; congruence|].
  simpl. intros s3 w3 H3. apply returns_bind.
  eapply returns_weaken; [apply returns_inject_outlier; lia|].
  simpl. intros s4 w4 H4. apply returns_bind.
  eapply returns_weaken;
    [apply returns_inject_edge_artifacts; [lia|congruence]|].
  simpl. intros s5 w5 H5. unfold recenter.
  apply returns_bind, returns_uniform. intros target.
  apply returns_ret. exact I.
Qed.

Lemma generate_synthetic_acceleration_data_total
    O names duration fs freqs noise_level trend w :
  (0 < duration)%Z -> (0 < fs)%Z -> (NS_PER_SECOND mod fs = 0)%Z ->
  exists df w',
    generate_synthetic_acceleration_data O names duration fs freqs
      noise_level trend w = Ok df w'.
Proof.
  intros Hd Hfs Hdiv.
  cut (returns (generate_synthetic_acceleration_data O names duration fs
                  freqs noise_level trend) w (fun _ _ => True)).
  { intros (df & w' & Hr & _). eauto. }
  unfold generate_synthetic_acceleration_data.
  set (n := (duration * 60 * fs)%Z).
  assert (60 <= n)%Z as Hn by (subst n; nia).
  apply returns_bind, returns_linspace; [lia|]. intros t Ht.
  apply returns_bind. eexists _, _. split; [reflexivity|].
  apply returns_bind. eexists _, _. split.
  { apply date_range_freq_Ok. repeat split; try reflexivity; lia. }
  match goal with |- returns _ ?w0 _ => set (w1 := w0) end.
  destruct (returns_for_enumerate
              (fun i sensor data =>
                 signal <- sensor_signal O names i n t freqs noise_level
                             trend ;;
                 ret (dict_set sensor signal data))
              (fun _ => True) names) with (i := 0%Z)
              (s := @nil (string * list R)) (w := w1)
    as (data & w2 & Hloop & _); [|exact I|].
  { intros i x s w0 _. apply returns_bind.
    eapply returns_weaken; [apply returns_sensor_signal; [lia|exact Ht]|].
    simpl. intros sig w3 _. apply returns_ret. exact I. }
  apply returns_bind. exists data, w2. split; [exact Hloop|].
  apply sensors_loop_Ok in Hloop as (Hcols & _ & _).
  eexists _, _. split; [|exact I].
  apply DataFrame_Ok. split; [|split; reflexivity].
  eapply Forall_impl; [apply Hcols; constructor|].
  simpl. intros kv Hkv. rewrite length_map, length_seqZ.
  apply length_recentered_column, Hkv.
Qed.





(** ** Independence from the clock *)

Lemma clock_blind_ret {A} (a : A) : clock_blind (ret a).
Proof. intros w1 w2 Hw. simpl. auto. Qed.

Lemma clock_blind_raise {A} e : clock_blind (@raise A e).
Proof. intros w1 w2 Hw. simpl. auto. Qed.

Lemma clock_blind_bind {A B} (c : M A) (k : A -> M B) :
  clock_blind c -> (forall a, clock_blind (k a)) ->
  clock_blind (x <- c ;; k x).
Proof.
  intros Hc Hk w1 w2 Hw. unfold bind.
  specialize (Hc w1 w2 Hw).
  destruct (c w1) as [a1 w1'|e1 w1'], (c w2) as [a2 w2'|e2 w2'];
    simpl in Hc; try contradiction.
  - destruct Hc as [-> Hw']. apply Hk, Hw'.
  - exact Hc.
Qed.

Lemma clock_blind_for_enumerate {A S} (body : Z -> A -> S -> M S) l :
  (forall i x s, clock_blind (body i x s)) ->
  forall i s, clock_blind (for_enumerate body i l s).
Proof.
  intros Hb. induction l as [|x l IH]; intros i s; simpl.
  - apply clock_blind_ret.
  - apply clock_blind_bind; [apply Hb | intros s'; apply IH].
Qed.

Lemma clock_blind_randn O : clock_blind (randn O).
Proof. intros w1 w2 Hw. simpl. rewrite Hw. auto. Qed.

Lemma clock_blind_randn_array O n : clock_blind (randn_array O n).
Proof. intros w1 w2 Hw. simpl. rewrite Hw. auto. Qed.

Lemma clock_blind_rand O : clock_blind (rand O).
Proof. intros w1 w2 Hw. simpl. rewrite Hw. auto. Qed.

Lemma clock_blind_uniform O low high : clock_blind (uniform O low high).
Proof.
  apply clock_blind_bind; [apply clock_blind_rand|].
  intros u. apply clock_blind_ret.
Qed.

Lemma clock_blind_randint O low high : clock_blind (randint O low high).
Proof.
  intros w1 w2 Hw. unfold randint.
  destruct (low <? high)%Z; simpl; rewrite Hw; auto.
Qed.

Lemma clock_blind_linspace start stop num :
  clock_blind (linspace start stop num).
Proof.
  unfold linspace. repeat case_match;
    auto using @clock_blind_ret, @clock_blind_raise.
Qed.

Lemma clock_blind_iadd_slice_array a start stop v :
  clock_blind (iadd_slice_array a start stop v).
Proof.
  unfold iadd_slice_array. repeat case_match;
    auto using @clock_blind_ret, @clock_blind_raise.
Qed.

Lemma clock_blind_iadd_array a v : clock_blind (iadd_array a v).
Proof. apply clock_blind_iadd_slice_array. Qed.

Lemma clock_blind_DataFrame data index : clock_blind (DataFrame data index).
Proof.
  unfold DataFrame. case_match;
    auto using @clock_blind_ret, @clock_blind_raise.
Qed.

Create HintDb blind discriminated.
#[local] Hint Resolve clock_blind_ret clock_blind_raise clock_blind_randn
  clock_blind_randn_array clock_blind_rand clock_blind_uniform
  clock_blind_randint clock_blind_linspace clock_blind_iadd_slice_array
  clock_blind_iadd_array clock_blind_DataFrame : blind.

(** Proves [clock_blind] for a sequence of steps known to the [blind]
    database. *)
Ltac blind_steps :=
  repeat first
    [ progress eauto with blind
    | apply clock_blind_bind; [|intros ?]
    | apply clock_blind_for_enumerate; intros ? ? ?
    | match goal with
      | |- clock_blind (if ?b then _ else _) => destruct b
      | |- clock_blind (match ?x with _ => _ end) => destruct x
      end ].

Lemma clock_blind_sensor_signal O names i n t freqs noise_level trend :
  clock_blind (sensor_signal O names i n t freqs noise_level trend).
Proof.
  unfold sensor_signal, modal_contribution, add_trend, add_noise,
    inject_outlier, shift_outlier, outlier_range, inject_edge_artifacts,
    recenter.
  blind_steps.
Qed.

Lemma same_draws_bind {A B} (R1 : A -> A -> Prop) (R2 : B -> B -> Prop)
    (c1 c2 : M A) (k1 k2 : A -> M B) w1 w2 :
  same_draws R1 (c1 w1) (c2 w2) ->
  (forall a1 a2 v1 v2, R1 a1 a2 -> w_rng v1 = w_rng v2 ->
     same_draws R2 (k1 a1 v1) (k2 a2 v2)) ->
  same_draws R2 ((x <- c1 ;; k1 x) w1) ((x <- c2 ;; k2 x) w2).
Proof.
  intros Hc Hk. unfold bind.
  destruct (c1 w1) as [a1 v1|e1 v1], (c2 w2) as [a2 v2|e2 v2];
    simpl in Hc; try contradiction.
  - destruct Hc as [Ha Hv]. apply Hk; assumption.
  - exact Hc.
Qed.

Lemma same_draws_date_range_freq start1 start2 periods fs w1 w2 :
  w_rng w1 = w_rng w2 ->
  same_draws
    (fun idx1 idx2 =>
       length idx1 = length idx2 /\ (start1 = start2 -> idx1 = idx2))
    (date_range_freq start1 periods fs w1)
    (date_range_freq start2 periods fs w2).
Proof.
  intros Hw. unfold date_range_freq.
  repeat case_match; simpl; auto.
  split; [|exact Hw]. rewrite !length_map.
  split; [reflexivity | intros ->; reflexivity].
Qed.

Lemma same_draws_DataFrame data idx1 idx2 w1 w2 :
  length idx1 = length idx2 -> w_rng w1 = w_rng w2 ->
  same_draws
    (fun df1 df2 =>
       wt_columns df1 = wt_columns df2 /\ (idx1 = idx2 -> df1 = df2))
    (DataFrame data idx1 w1) (DataFrame data idx2 w2).
Proof.
  intros Hlen Hw. unfold DataFrame. rewrite Hlen.
  case_match; simpl; auto.
  split; [|exact Hw]. split; [reflexivity | intros ->; reflexivity].
Qed.

(** The columns are computed from the draws alone; the clock only enters
    the time index, through the start minute. *)
Lemma linspace_cases start stop num :
  (forall w, linspace start stop num w = Raise ValueError w) \/
  (exists l, forall w, linspace start stop num w = Ok l w).
Proof.
  unfold linspace. repeat case_match; [left | right; eexists..];
    intros w; reflexivity.
Qed.

Lemma synthesis_same_draws (O : Oracle) (names : list string)
    (duration fs : Z) (freqs : list R) (noise_level trend : R)
    (w1 w2 : world) :
  w_rng w1 = w_rng w2 ->
  same_draws
    (fun df1 df2 =>
       wt_columns df1 = wt_columns df2 /\
       (replace_second_microsecond (o_now O (w_clk w1))
        = replace_second_microsecond (o_now O (w_clk w2)) -> df1 = df2))
    (generate_synthetic_acceleration_data O names duration fs freqs
       noise_level trend w1)
    (generate_synthetic_acceleration_data O names duration fs freqs
       noise_level trend w2).
Proof.
  intros Hw. unfold generate_synthetic_acceleration_data.
  destruct (linspace_cases 0 (IZR (duration * 60)) (duration * 60 * fs))
    as [Hl|[t Hl]].
  { rewrite !(bind_Raise_intro _ _ _ _ _ (Hl _)). simpl. auto. }
  rewrite !(bind_Ok_intro _ _ _ _ _ (Hl _)).
  erewrite !(bind_Ok_intro (datetime_now O))
    by (apply datetime_now_Ok; split; reflexivity).
  eapply same_draws_bind; [apply same_draws_date_range_freq; exact Hw|].
  intros idx1 idx2 x1 x2 [Hlen Hidx] Hx.
  eapply same_draws_bind.
  { apply clock_blind_for_enumerate; [|exact Hx].
    intros i sensor data. apply clock_blind_bind;
      [apply clock_blind_sensor_signal | intros; apply clock_blind_ret]. }
  intros data ? y1 y2 <- Hy.
  pose proof (same_draws_DataFrame data idx1 idx2 y1 y2 Hlen Hy) as Hdf.
  destruct (DataFrame data idx1 y1), (DataFrame data idx2 y2);
    simpl in *; try contradiction; [|exact Hdf].
  destruct Hdf as [[Hcols Heq] Hrng]. auto.
Qed.

(** X13.  Two calls of the synthesizer with identical explicit parameters
    that start from the same position of the same random source either both
    fail with the same exception or both return, whatever the clock shows and
    whatever files exist; the returned tables have identical columns, and
    they are identical as a whole, time index included, when the two calls
    read the clock within the same minute. *)
Theorem synthesis_reproducible (O : Oracle) (names : list string)
    (duration fs : Z) (freqs : list R) (noise_level trend : R)
    (w1 w2 : world) :
  w_rng w1 = w_rng w2 ->
  match generate_synthetic_acceleration_data O names duration fs freqs
          noise_level trend w1,
        generate_synthetic_acceleration_data O names duration fs freqs
          noise_level trend w2 with
  | Ok df1 _, Ok df2 _ =>
      wt_columns df1 = wt_columns df2 /\
      (replace_second_microsecond (o_now O (w_clk w1))
       = replace_second_microsecond (o_now O (w_clk w2)) -> df1 = df2)
  | Raise e1 _, Raise e2 _ => e1 = e2
  | _, _ => False
  end.
Proof.
  intros Hw.
  pose proof (synthesis_same_draws O names duration fs freqs noise_level
                trend w1 w2 Hw) as H.
  destruct (generate_synthetic_acceleration_data _ _ _ _ _ _ _ w1),
           (generate_synthetic_acceleration_data _ _ _ _ _ _ _ w2);
    simpl in H; try contradiction; tauto.
Qed.

Lemma synthesis_reproducible_witness :
  match generate_synthetic_acceleration_data ticking_oracle ["s1"; "s2"] 1 10
          [5%R; 12%R] 0.05%R 0.02%R (World 0 0 ∅),
        generate_synthetic_acceleration_data ticking_oracle ["s1"; "s2"] 1 10
          [5%R; 12%R] 0.05%R 0.02%R (World 0 1 ∅) with
  | Ok df1 _, Ok df2 _ => wt_columns df1 = wt_columns df2
  | Raise e1 _, Raise e2 _ => e1 = e2
  | _, _ => False
  end.
Proof.
  pose proof (synthesis_reproducible ticking_oracle ["s1"; "s2"] 1 10
                [5%R; 12%R] 0.05%R 0.02%R (World 0 0 ∅) (World 0 1 ∅)
                eq_refl) as H.
  destruct (generate_synthetic_acceleration_data _ _ _ _ _ _ _ (World 0 0 ∅)),
           (generate_synthetic_acceleration_data _ _ _ _ _ _ _ (World 0 1 ∅));
    tauto.
Defined.

(** The same call repeated from the same position of the same random
    source, one minute later, returns a different table, because the time
    index starts at the minute of the call. *)
Lemma synthesis_depends_on_clock :
  exists df1 df2 w1' w2',
    generate_synthetic_acceleration_data ticking_oracle ["s1"; "s2"] 1 10
      [5%R; 12%R] 0.05%R 0.02%R (World 0 0 ∅) = Ok df1 w1' /\
    generate_synthetic_acceleration_data ticking_oracle ["s1"; "s2"] 1 10
      [5%R; 12%R] 0.05%R 0.02%R (World 0 1 ∅) = Ok df2 w2' /\
    wt_index df1 !! 0%nat = Some (timestamp_ns (datetime 2024 1 1 9 0 0)) /\
    wt_index df2 !! 0%nat = Some (timestamp_ns (datetime 2024 1 1 9 1 0)) /\
    df1 <> df2.
Proof.
  destruct (generate_synthetic_acceleration_data_total ticking_oracle
              ["s1"; "s2"] 1 10 [5%R; 12%R] 0.05%R 0.02%R (World 0 0 ∅))
    as (df1 & w1' & H1); [lia | lia | reflexivity |].
  destruct (generate_synthetic_acceleration_data_total ticking_oracle
              ["s1"; "s2"] 1 10 [5%R; 12%R] 0.05%R 0.02%R (World 0 1 ∅))
    as (df2 & w2' & H2); [lia | lia | reflexivity |].
  exists df1, df2, w1', w2'.
  split; [exact H1|]. split; [exact H2|].
  apply generate_synthetic_acceleration_data_Ok in H1
    as (_ & _ & _ & Hi1 & _).
  apply generate_synthetic_acceleration_data_Ok in H2
    as (_ & _ & _ & Hi2 & _).
  assert (wt_index df1 !! 0%nat
          = Some (timestamp_ns (datetime 2024 1 1 9 0 0))) as E1.
  { rewrite Hi1, list_lookup_fmap, lookup_seqZ_lt by lia. reflexivity. }
  assert (wt_index df2 !! 0%nat
          = Some (timestamp_ns (datetime 2024 1 1 9 1 0))) as E2.
  { rewrite Hi2, list_lookup_fmap, lookup_seqZ_lt by lia. reflexivity. }
  split; [exact E1|]. split; [exact E2|].
  intros ->. rewrite E1 in E2. discriminate E2.
Qed.

(** ** Strings *)

Lemma string_app_nil b : "" +:+ b = b.
Proof. reflexivity. Qed.

Lemma string_app_cons c a b : String c a +:+ b = String c (a +:+ b).
Proof. reflexivity. Qed.

Lemma string_length_app a b :
  String.length (a +:+ b) = (String.length a + String.length b)%nat.
Proof.
  induction a as [|c a IH]; [reflexivity|].
  rewrite string_app_cons. simpl. rewrite IH. reflexivity.
Qed.

Lemma string_app_assoc a b c : (a +:+ b) +:+ c = a +:+ (b +:+ c).
Proof.
  induction a as [|x a IH]; [reflexivity|].
  rewrite !string_app_cons, IH. reflexivity.
Qed.

Lemma string_app_inv_tail a b t : a +:+ t = b +:+ t -> a = b.
Proof.
  revert b. induction a as [|x a IH]; intros [|y b] H.
  - reflexivity.
  - apply (f_equal String.length) in H.
    rewrite string_app_nil, string_length_app in H. simpl in H. lia.
  - apply (f_equal String.length) in H.
    rewrite string_app_nil, string_length_app in H. simpl in H. lia.
  - rewrite !string_app_cons in H. injection H as -> H.
    f_equal. apply IH, H.
Qed.

Lemma contains_app ch a b :
  contains ch (a +:+ b) = contains ch a || contains ch b.
Proof.
  induction a as [|c a IH]; [reflexivity|].
  rewrite string_app_cons. simpl. rewrite IH. apply orb_assoc.
Qed.

Lemma all_digits_app a b :
  all_digits (a +:+ b) = all_digits a && all_digits b.
Proof.
  induction a as [|c a IH]; [reflexivity|].
  rewrite string_app_cons. simpl. rewrite IH. apply andb_assoc.
Qed.

Lemma contains_all_digits ch s :
  is_digit ch = false -> all_digits s = true -> contains ch s = false.
Proof.
  intros Hch. induction s as [|c s IH]; simpl; [reflexivity|].
  intros [Hc Hs]%andb_prop. rewrite (IH Hs), orb_false_r.
  apply bool_decide_eq_false. intros ->. congruence.
Qed.

Lemma suffix_after_last_None ch s :
  contains ch s = false -> suffix_after_last ch s = None.
Proof.
  induction s as [|c s IH]; simpl; [reflexivity|].
  intros [Hc Hs]%orb_false_elim. rewrite (IH Hs), Hc. reflexivity.
Qed.

Lemma suffix_after_last_app ch a t r :
  suffix_after_last ch t = Some r -> suffix_after_last ch (a +:+ t) = Some r.
Proof.
  intros Ht. induction a as [|c a IH]; [exact Ht|].
  rewrite string_app_cons. simpl. rewrite IH. reflexivity.
Qed.

(** A string free of [ch] is determined by what it is followed by [ch] and
    anything else. *)
Lemma terminated_inj ch d1 d2 r1 r2 :
  contains ch d1 = false -> contains ch d2 = false ->
  d1 +:+ String ch r1 = d2 +:+ String ch r2 -> d1 = d2 /\ r1 = r2.
Proof.
  revert d2. induction d1 as [|c d1 IH]; intros [|c' d2];
    rewrite ?string_app_nil, ?string_app_cons; simpl; intros H1 H2 H.
  - injection H as ->. auto.
  - injection H as <- _. apply orb_false_elim in H2 as [H2 _].
    rewrite bool_decide_true in H2 by reflexivity. discriminate.
  - injection H as -> _. apply orb_false_elim in H1 as [H1 _].
    rewrite bool_decide_true in H1 by reflexivity. discriminate.
  - injection H as -> H.
    apply orb_false_elim in H1 as [_ H1].
    apply orb_false_elim in H2 as [_ H2].
    destruct (IH _ H1 H2 H) as [-> ->]. auto.
Qed.

Lemma is_digit_digit_char d : is_digit (digit_char d) = true.
Proof.
  unfold is_digit, digit_char.
  pose proof (Z.mod_pos_bound d 10 ltac:(lia)) as Hd.
  assert (Z.to_nat (d mod 10) <= 9)%nat as Hk.
  { apply Nat2Z.inj_le. rewrite Z2Nat.id by apply Hd.
    apply Z.lt_succ_r, Hd. }
  generalize dependent (Z.to_nat (d mod 10)). intros k Hk.
  rewrite nat_ascii_embedding.
  - apply andb_true_intro. split; apply Nat.leb_le.
    + apply Nat.le_add_r.
    + apply (Nat.add_le_mono_l k 9 48), Hk.
  - apply Nat.le_lt_trans with (48 + 9)%nat.
    + apply (Nat.add_le_mono_l k 9 48), Hk.
    + apply Nat.ltb_lt. vm_compute. reflexivity.
Qed.
Lemma all_digits_zero_pad w n : all_digits (zero_pad w n) = true.
Proof.
  revert n. induction w as [|w IH]; intros n; [reflexivity|].
  change (zero_pad (S w) n)
    with (zero_pad w (n / 10) +:+ String (digit_char n) "").
  rewrite all_digits_app, IH. cbn [all_digits andb].
  rewrite is_digit_digit_char. reflexivity.
Qed.

Lemma length_zero_pad w n : String.length (zero_pad w n) = w.
Proof.
  revert n. induction w as [|w IH]; intros n; [reflexivity|].
  change (zero_pad (S w) n)
    with (zero_pad w (n / 10) +:+ String (digit_char n) "").
  rewrite string_length_app, IH. cbn [String.length]. apply Nat.add_1_r.
Qed.

Lemma is_digit_pretty_N_char x : is_digit (pretty_N_char x) = true.
Proof. unfold pretty_N_char. repeat case_match; reflexivity. Qed.

Lemma all_digits_pretty_N_go x s :
  all_digits s = true -> all_digits (pretty_N_go x s) = true.
Proof.
  revert s. induction (N.lt_wf_0 x) as [x _ IH]; intros s Hs.
  destruct (N.eq_dec x 0%N) as [->|Hx].
  - rewrite pretty_N_go_0. exact Hs.
  - rewrite pretty_N_go_step by lia. apply IH.
    + apply N.div_lt; lia.
    + simpl. rewrite is_digit_pretty_N_char. exact Hs.
Qed.

Lemma all_digits_pretty_N (x : N) : all_digits (pretty x) = true.
Proof.
  unfold pretty, pretty_N. case_decide; [reflexivity|].
  apply all_digits_pretty_N_go. reflexivity.
Qed.

(** [str(n)] holds digits and, for a negative number, a leading minus. *)
Lemma contains_str_int ch n :
  is_digit ch = false -> ch <> "-"%char -> contains ch (str_int n) = false.
Proof.
  intros Hch Hdash. unfold str_int, pretty, pretty_Z.
  destruct n as [|p|p].
  - apply contains_all_digits; [exact Hch | reflexivity].
  - apply contains_all_digits; [exact Hch | apply all_digits_pretty_N].
  - simpl. rewrite bool_decide_false by congruence. simpl.
    apply contains_all_digits; [exact Hch | apply all_digits_pretty_N].
Qed.

Lemma str_int_inj n1 n2 : str_int n1 = str_int n2 -> n1 = n2.
Proof. apply pretty_Z_inj. Qed.

(** [strftime('%Y%m%d%H%M%S')] yields fourteen digits. *)
Lemma strftime_compact_digits dt :
  all_digits (strftime_compact dt) = true /\
  String.length (strftime_compact dt) = 14%nat.
Proof.
  unfold strftime_compact.
  rewrite !all_digits_app, !all_digits_zero_pad.
  rewrite !string_length_app, !length_zero_pad. auto.
Qed.

(** ** File names *)

(** The part of a segment file name that follows [_segment]. *)
Lemma contains_s_after_segment s a b :
  all_digits a = true -> all_digits b = true ->
  contains "s" ("egment" +:+ str_int s +:+ "_" +:+ a +:+ "_" +:+ b
                +:+ ".pickle") = false.
Proof.
  intros Ha Hb. rewrite !contains_app.
  rewrite contains_str_int by (reflexivity || discriminate).
  rewrite (contains_all_digits "s" a), (contains_all_digits "s" b)
    by (reflexivity || assumption).
  reflexivity.
Qed.

Lemma segment_filename_inj c1 c2 s1 s2 a1 b1 a2 b2 :
  all_digits a1 = true -> all_digits b1 = true ->
  all_digits a2 = true -> all_digits b2 = true ->
  segment_filename c1 s1 a1 b1 = segment_filename c2 s2 a2 b2 ->
  c1 = c2 /\ s1 = s2.
Proof.
  intros Ha1 Hb1 Ha2 Hb2 H. unfold segment_filename in H.
  set (R1 := "egment" +:+ str_int s1 +:+ "_" +:+ a1 +:+ "_" +:+ b1
             +:+ ".pickle") in *.
  set (R2 := "egment" +:+ str_int s2 +:+ "_" +:+ a2 +:+ "_" +:+ b2
             +:+ ".pickle") in *.
  change (c1 +:+ String "_" (String "s" R1)
          = c2 +:+ String "_" (String "s" R2)) in H.
  assert (forall R, contains "s" R = false ->
            suffix_after_last "s" (String "_" (String "s" R)) = Some R)
    as Hlast.
  { intros R HR. simpl. rewrite (suffix_after_last_None _ _ HR).
    reflexivity. }
  assert (R1 = R2) as HR.
  { pose proof (f_equal (suffix_after_last "s") H) as E.
    rewrite (suffix_after_last_app _ c1 _ R1) in E
      by (apply Hlast, contains_s_after_segment; assumption).
    rewrite (suffix_after_last_app _ c2 _ R2) in E
      by (apply Hlast, contains_s_after_segment; assumption).
    congruence. }
  rewrite HR in H. apply string_app_inv_tail in H.
  split; [exact H|].
  subst R1 R2. apply String.app_inj in HR.
  change (str_int s1 +:+ String "_" (a1 +:+ "_" +:+ b1 +:+ ".pickle")
          = str_int s2 +:+ String "_" (a2 +:+ "_" +:+ b2 +:+ ".pickle"))
    in HR.
  apply terminated_inj in HR as [Hs _];
    [| apply contains_str_int; [reflexivity | discriminate]..].
  apply str_int_inj, Hs.
Qed.

Lemma segment_name_inj c1 c2 s1 s2 :
  segment_name c1 s1 = segment_name c2 s2 -> c1 = c2 /\ s1 = s2.
Proof.
  apply segment_filename_inj; apply strftime_compact_digits.
Qed.

Lemma path_join_inj dir n1 n2 : path_join dir n1 = path_join dir n2 -> n1 = n2.
Proof.
  unfold path_join. intros H. apply String.app_inj in H.
  change (String "/" n1 = String "/" n2) in H. congruence.
Qed.

Lemma segment_path_inj dir c1 c2 s1 s2 :
  segment_path dir c1 s1 = segment_path dir c2 s2 -> c1 = c2 /\ s1 = s2.
Proof. intros H%path_join_inj. apply segment_name_inj, H. Qed.

(** The summary is not named like a segment. *)
Lemma summary_path_not_segment dir c s : summary_path dir <> segment_path dir c s.
Proof.
  intros H%path_join_inj.
  apply (f_equal (contains "k")) in H.
  unfold segment_name, segment_filename in H.
  rewrite !contains_app in H.
  change (contains "k" ".pickle") with true in H.
  rewrite !orb_true_r in H. discriminate H.
Qed.

(** ** The assembler, step by step *)

Lemma datetime_add_Ok dt delta r w w' :
  datetime_add dt delta w = Ok r w' <->
  r = (dt + delta)%Z /\ (datetime_min <= r <= datetime_max)%Z /\ w' = w.
Proof.
  unfold datetime_add.
  destruct (Z.leb_spec datetime_min (dt + delta)) as [Hlo|Hlo],
           (Z.leb_spec (dt + delta) datetime_max) as [Hhi|Hhi]; simpl;
    (split; [intros Hr; inv_run; auto | intros (-> & [? ?] & ->)]);
    solve [reflexivity | lia].
Qed.

Lemma datetime_constants :
  anchor_time = 1704099600000000%Z /\
  datetime_min = (-62135596800000000)%Z /\
  datetime_max = 253402300799999999%Z /\
  last_segment = 139832334%Z.
Proof. repeat split; vm_compute; reflexivity. Qed.

Lemma segment_in_range s :
  (1 <= s <= last_segment)%Z ->
  (datetime_min <= segment_start s <= datetime_max)%Z /\
  (datetime_min <= segment_end s <= datetime_max)%Z.
Proof.
  destruct datetime_constants as (Ha & Hmin & Hmax & Hlast).
  unfold segment_end, segment_start, timedelta_minutes, US_PER_MINUTE,
    US_PER_SECOND.
  rewrite Ha, Hmin, Hmax, Hlast. lia.
Qed.

Lemma segment_past_range s :
  (last_segment < s)%Z -> (datetime_max < segment_end s)%Z.
Proof.
  destruct datetime_constants as (Ha & Hmin & Hmax & Hlast).
  unfold segment_end, segment_start, timedelta_minutes, US_PER_MINUTE,
    US_PER_SECOND.
  rewrite Ha, Hmax, Hlast. lia.
Qed.

Lemma segment_times_Ok segment st en w w' :
  segment_times segment w = Ok (st, en) w' <->
  st = segment_start segment /\ en = segment_end segment /\
  (datetime_min <= st <= datetime_max)%Z /\
  (datetime_min <= en <= datetime_max)%Z /\ w' = w.
Proof.
  unfold segment_times, segment_end, segment_start. split.
  - intros H. inv_run.
    apply datetime_add_Ok in Hrun as (-> & Hst & ->).
    apply datetime_add_Ok in Hrun0 as (-> & Hen & ->).
    match goal with E : (_, _) = (_, _) |- _ => injection E as <- <- end.
    auto.
  - intros (-> & -> & Hst & Hen & ->).
    erewrite bind_Ok_intro
      by (apply datetime_add_Ok; split; [reflexivity | split; [exact Hst | reflexivity]]).
    erewrite bind_Ok_intro
      by (apply datetime_add_Ok; split; [reflexivity | split; [exact Hen | reflexivity]]).
    reflexivity.
Qed.

Lemma as_names_Ok v l w w' :
  as_names v w = Ok l w' <-> names_of v = Some l /\ w' = w.
Proof.
  unfold as_names. destruct (names_of v) as [l'|]; split.
  - intros H. inv_run. auto.
  - intros [[= ->] ->]. reflexivity.
  - intros H. inv_run.
  - intros [[=] _].
Qed.

Lemma as_int_Ok v z w w' :
  as_int v w = Ok z w' <-> int_of v = Some z /\ w' = w.
Proof.
  unfold as_int. destruct (int_of v) as [z'|]; split.
  - intros H. inv_run. auto.
  - intros [[= ->] ->]. reflexivity.
  - intros H. destruct v; inv_run.
  - intros [[=] _].
Qed.

Lemma date_range_periods_Ok start end_ periods idx w w' :
  date_range_periods start end_ periods w = Ok idx w' ->
  (1 < periods)%Z ->
  idx = map (fun k => (timestamp_ns start
                       + k * (timestamp_ns end_ - timestamp_ns start)
                         / (periods - 1))%Z) (seqZ 0 periods) /\
  w' = w.
Proof.
  unfold date_range_periods. intros H Hp.
  destruct (Z.ltb_spec periods 0); [lia|].
  destruct (Z.eqb_spec periods 1); [lia|].
  inv_run. auto.
Qed.

Lemma set_index_Ok df new_index df' w w' :
  set_index df new_index w = Ok df' w' <->
  length new_index = length (wt_index df) /\
  df' = DataFrame_ new_index (wt_columns df) /\ w' = w.
Proof.
  unfold set_index.
  destruct (Nat.eqb_spec (length new_index) (length (wt_index df))); split.
  - intros H. inv_run. auto.
  - intros (_ & -> & ->). reflexivity.
  - intros H. inv_run.
  - intros (? & _). contradiction.
Qed.

Lemma choice_quality_Ok O q w w' :
  choice_quality O w = Ok q w' ->
  q ∈ ["good"; "fair"; "excellent"] /\ w' = advance_rng 1 w.
Proof.
  unfold choice_quality. intros H. inv_run.
  apply rand_Ok in Hrun as [-> ->]. split; [|reflexivity].
  repeat case_match; set_solver.
Qed.

Lemma write_file_Ok path f u w w' :
  write_file path f w = Ok u w' <->
  w' = World (w_rng w) (w_clk w) (<[path := f]> (w_files w)).
Proof.
  unfold write_file. destruct u. split; [intros [= <-] | intros ->];
    reflexivity.
Qed.

Lemma create_sample_pickle_file_Ok O path df md u w w' :
  create_sample_pickle_file O path df md w = Ok u w' ->
  match md with
  | Some m =>
      w_files w' = <[path := PickleFile df m]> (w_files w) /\
      w_clk w' = w_clk w
  | None =>
      w_files w'
      = <[path := PickleFile df (PDict (list_to_map
            [("tag_columns", PStrs []);
             ("sampling_frequency", PInt 250);
             ("generation_timestamp", PStr (isoformat (o_now O (w_clk w))));
             ("synthetic", PBool true)]))]> (w_files w) /\
      w_clk w' = S (w_clk w)
  end /\ w_rng w' = w_rng w.
Proof.
  unfold create_sample_pickle_file. intros H. destruct md as [m|]; inv_run.
  - apply write_file_Ok in H as ->. simpl. auto.
  - apply datetime_now_Ok in Hrun0 as [-> ->].
    apply write_file_Ok in H as ->. simpl. auto.
Qed.

(** What one completed pass of the loop over the segments leaves behind. *)
Lemma generate_segment_Ok O sensor_names fs out case_name s u w w' :
  generate_segment O sensor_names fs out case_name s w = Ok u w' ->
  (exists f, segment_record sensor_names fs s f /\
             w_files w' = <[segment_path out case_name s := f]> (w_files w)) /\
  (datetime_min <= segment_start s)%Z /\ (segment_end s <= datetime_max)%Z.
Proof.
  unfold generate_segment. intros H.
  apply bind_Ok in H as ([st en] & w1 & Htimes & H).
  apply segment_times_Ok in Htimes as (-> & -> & Hst & Hen & ->).
  apply bind_Ok in H as (r1 & w2 & Hr1 & H).
  apply bind_Ok in H as (r2 & w3 & Hr2 & H).
  pose proof (keeps_files_randn _ _ _ _ Hr1) as F1.
  pose proof (keeps_files_randn _ _ _ _ Hr2) as F2.
  apply bind_Ok in H as (names & w4 & Hnames & H).
  apply as_names_Ok in Hnames as [Hnames ->].
  apply bind_Ok in H as (fs_hz & w5 & Hfs & H).
  apply as_int_Ok in Hfs as [Hfs ->].
  apply bind_Ok in H as (df & w6 & Hsynth & H).
  apply generate_synthetic_acceleration_data_Ok in Hsynth
    as (Hn & Hfs0 & Hdiv & Hidx & Hcols & Hkeys & Hnodup & F3).
  assert (0 < fs_hz)%Z as Hpos by lia.
  assert (df_len df = (25 * 60 * fs_hz)%Z) as Hlen.
  { unfold df_len. rewrite Hidx, length_map, length_seqZ. lia. }
  apply bind_Ok in H as (idx & w7 & Hrange & H).
  rewrite Hlen in Hrange.
  apply date_range_periods_Ok in Hrange as [-> ->]; [|lia].
  apply bind_Ok in H as (df' & w8 & Hset & H).
  apply set_index_Ok in Hset as (_ & -> & ->).
  apply bind_Ok in H as (now & w9 & Hnow & H).
  pose proof (keeps_files_datetime_now _ _ _ _ Hnow) as F4.
  apply bind_Ok in H as (quality & w10 & Hq & H).
  pose proof (keeps_files_choice_quality _ _ _ _ Hq) as F5.
  apply choice_quality_Ok in Hq as [Hq _].
  apply create_sample_pickle_file_Ok in H as [[Hfiles _] _].
  split; [|lia].
  eexists. split.
  - exists names, fs_hz, (wt_columns df), now, quality.
    repeat (split; [eassumption || reflexivity|]). reflexivity.
  - rewrite Hfiles, F5, F4, F3, F2, F1. reflexivity.
Qed.

Lemma generate_segment_total O sensor_names fs out case_name s w names fs_hz :
  names_of sensor_names = Some names -> int_of fs = Some fs_hz ->
  (0 < fs_hz)%Z -> (NS_PER_SECOND mod fs_hz = 0)%Z ->
  (1 <= s <= last_segment)%Z ->
  exists w', generate_segment O sensor_names fs out case_name s w = Ok tt w'.
Proof.
  intros Hnames Hfs Hpos Hdiv Hs.
  destruct (segment_in_range s Hs) as [Hst Hen].
  cut (returns (generate_segment O sensor_names fs out case_name s) w
               (fun _ _ => True)).
  { intros ([] & w' & Hr & _). eauto. }
  unfold generate_segment.
  apply returns_bind. eexists _, _. split.
  { apply segment_times_Ok. repeat split; try reflexivity; lia. }
  apply returns_bind, returns_randn, returns_bind, returns_randn.
  apply returns_bind. eexists _, _. split.
  { apply as_names_Ok. split; [exact Hnames | reflexivity]. }
  apply returns_bind. eexists _, _. split.
  { apply as_int_Ok. split; [exact Hfs | reflexivity]. }
  apply returns_bind.
  match goal with
  | |- returns (generate_synthetic_acceleration_data ?O ?n ?d ?f ?b ?nl ?tr)
               ?w0 _ =>
      destruct (generate_synthetic_acceleration_data_total O n d f b nl tr w0)
        as (df & w1 & Hsynth); [lia | exact Hpos | exact Hdiv |];
      exists df, w1; split; [exact Hsynth|]
  end.
  apply generate_synthetic_acceleration_data_Ok in Hsynth
    as (_ & _ & _ & Hidx & _).
  assert (df_len df = (25 * 60 * fs_hz)%Z) as Hlen.
  { unfold df_len. rewrite Hidx, length_map, length_seqZ. lia. }
  apply returns_bind. rewrite Hlen. unfold date_range_periods.
  destruct (Z.ltb_spec (25 * 60 * fs_hz) 0); [lia|].
  destruct (Z.eqb_spec (25 * 60 * fs_hz) 1); [lia|].
  apply returns_ret.
  apply returns_bind. eexists _, _. split.
  { apply set_index_Ok. split; [|split; reflexivity].
    rewrite length_map, length_seqZ, Hidx, length_map, length_seqZ.
    reflexivity. }
  apply returns_bind. eexists _, _. split; [reflexivity|].
  apply returns_bind. unfold choice_quality.
  apply returns_bind, returns_rand, returns_ret.
  unfold create_sample_pickle_file.
  apply returns_bind, returns_ret.
  eexists _, _. split; [reflexivity | exact I].
Qed.

(** ** Failures and the files *)

Lemma never_writes_ret {A} (a : A) : never_writes (ret a).
Proof. intros w. reflexivity. Qed.

Lemma never_writes_raise {A} e : never_writes (@raise A e).
Proof. intros w. reflexivity. Qed.

Lemma never_writes_bind {A B} (c : M A) (k : A -> M B) :
  never_writes c -> (forall a, never_writes (k a)) ->
  never_writes (x <- c ;; k x).
Proof.
  intros Hc Hk w. unfold bind. specialize (Hc w).
  destruct (c w) as [a w1|e w1]; simpl in Hc; [|exact Hc].
  rewrite Hk. exact Hc.
Qed.

Lemma never_writes_for_enumerate {A S} (body : Z -> A -> S -> M S) l :
  (forall i x s, never_writes (body i x s)) ->
  forall i s, never_writes (for_enumerate body i l s).
Proof.
  intros Hb. induction l as [|x l IH]; intros i s; simpl.
  - apply never_writes_ret.
  - apply never_writes_bind; [apply Hb | intros s'; apply IH].
Qed.

Lemma never_writes_keeps_files {A} (c : M A) : never_writes c -> keeps_files c.
Proof. intros Hc w a w' H. specialize (Hc w). rewrite H in Hc. exact Hc. Qed.

Lemma never_writes_fails_cleanly {A} (c : M A) :
  never_writes c -> fails_cleanly c.
Proof. intros Hc w e w' H. specialize (Hc w). rewrite H in Hc. exact Hc. Qed.

Lemma fails_cleanly_bind {A B} (c : M A) (k : A -> M B) :
  never_writes c -> (forall a, fails_cleanly (k a)) ->
  fails_cleanly (x <- c ;; k x).
Proof.
  intros Hc Hk w e w' H. unfold bind in H. specialize (Hc w).
  destruct (c w) as [a w1|e1 w1]; simpl in Hc.
  - rewrite <- Hc. eapply Hk, H.
  - injection H as _ <-. exact Hc.
Qed.

(** Proves [never_writes] for a step defined by cases over pure tests. *)
Ltac never_writes_cases :=
  intros w; repeat case_match; reflexivity.

Lemma never_writes_randn O : never_writes (randn O).
Proof. never_writes_cases. Qed.

Lemma never_writes_randn_array O n : never_writes (randn_array O n).
Proof. never_writes_cases. Qed.

Lemma never_writes_rand O : never_writes (rand O).
Proof. never_writes_cases. Qed.

Lemma never_writes_randint O low high : never_writes (randint O low high).
Proof. intros w. unfold randint. case_match; reflexivity. Qed.

Lemma never_writes_datetime_now O : never_writes (datetime_now O).
Proof. never_writes_cases. Qed.

Lemma never_writes_uniform O low high : never_writes (uniform O low high).
Proof.
  apply never_writes_bind; [apply never_writes_rand|].
  intros u. apply never_writes_ret.
Qed.

Lemma never_writes_choice_quality O : never_writes (choice_quality O).
Proof.
  apply never_writes_bind; [apply never_writes_rand|].
  intros u. apply never_writes_ret.
Qed.

Lemma never_writes_linspace start stop num :
  never_writes (linspace start stop num).
Proof. intros w. unfold linspace. repeat case_match; reflexivity. Qed.

Lemma never_writes_iadd_slice_array a start stop v :
  never_writes (iadd_slice_array a start stop v).
Proof. intros w. unfold iadd_slice_array. repeat case_match; reflexivity. Qed.

Lemma never_writes_iadd_array a v : never_writes (iadd_array a v).
Proof. apply never_writes_iadd_slice_array. Qed.

Lemma never_writes_date_range_freq start periods fs :
  never_writes (date_range_freq start periods fs).
Proof. intros w. unfold date_range_freq. repeat case_match; reflexivity. Qed.

Lemma never_writes_date_range_periods start end_ periods :
  never_writes (date_range_periods start end_ periods).
Proof.
  intros w. unfold date_range_periods. repeat case_match; reflexivity.
Qed.

Lemma never_writes_DataFrame data index : never_writes (DataFrame data index).
Proof. intros w. unfold DataFrame. case_match; reflexivity. Qed.

Lemma never_writes_set_index df new_index :
  never_writes (set_index df new_index).
Proof. intros w. unfold set_index. case_match; reflexivity. Qed.

Lemma never_writes_datetime_add dt delta : never_writes (datetime_add dt delta).
Proof. intros w. unfold datetime_add. case_match; reflexivity. Qed.

Lemma never_writes_py_get d key fallback : never_writes (py_get d key fallback).
Proof. intros w. unfold py_get. case_match; reflexivity. Qed.

Lemma never_writes_as_names v : never_writes (as_names v).
Proof. intros w. unfold as_names. case_match; reflexivity. Qed.

Lemma never_writes_as_int v : never_writes (as_int v).
Proof. intros w. unfold as_int. repeat case_match; reflexivity. Qed.

Create HintDb quiet discriminated.
#[local] Hint Resolve never_writes_ret never_writes_raise never_writes_randn
  never_writes_randn_array never_writes_rand never_writes_randint
  never_writes_datetime_now never_writes_uniform never_writes_choice_quality
  never_writes_linspace never_writes_iadd_slice_array never_writes_iadd_array
  never_writes_date_range_freq never_writes_date_range_periods
  never_writes_DataFrame never_writes_set_index never_writes_datetime_add
  never_writes_py_get never_writes_as_names never_writes_as_int : quiet.

(** Proves [never_writes] for a sequence of steps known to the [quiet]
    database. *)
Ltac quiet_steps :=
  repeat first
    [ progress eauto with quiet
    | apply never_writes_bind; [|intros ?]
    | apply never_writes_for_enumerate; intros ? ? ?
    | match goal with
      | |- never_writes (if ?b then _ else _) => destruct b
      | |- never_writes (match ?x with _ => _ end) => destruct x
      end ].

Lemma never_writes_sensor_signal O names i n t freqs noise_level trend :
  never_writes (sensor_signal O names i n t freqs noise_level trend).
Proof.
  unfold sensor_signal, modal_contribution, add_trend, add_noise,
    inject_outlier, shift_outlier, outlier_range, inject_edge_artifacts,
    recenter.
  quiet_steps.
Qed.

Lemma never_writes_generate_synthetic_acceleration_data
    O names duration fs freqs noise_level trend :
  never_writes
    (generate_synthetic_acceleration_data O names duration fs freqs
       noise_level trend).
Proof.
  unfold generate_synthetic_acceleration_data.
  pose proof (never_writes_sensor_signal O).
  quiet_steps.
Qed.

Lemma never_writes_segment_times s : never_writes (segment_times s).
Proof. unfold segment_times. quiet_steps. Qed.

(** A pass of the segment loop that fails has written nothing: the record
    is written last, and writing does not fail. *)
Lemma fails_cleanly_generate_segment O sensor_names fs out case_name s :
  fails_cleanly (generate_segment O sensor_names fs out case_name s).
Proof.
  unfold generate_segment.
  apply fails_cleanly_bind; [apply never_writes_segment_times|].
  intros [st en].
  repeat (apply fails_cleanly_bind;
          [solve [eauto using never_writes_generate_synthetic_acceleration_data
                    with quiet]
          | intros ?]).
  intros w e w' H. discriminate H.
Qed.

(** ** The loop over the segments *)

Lemma segments_loop_Ok O sensor_names fs out case_name l :
  NoDup l ->
  forall w u w',
    for_each (generate_segment O sensor_names fs out case_name) l w
      = Ok u w' ->
    (forall s, s ∈ l ->
       (exists f, segment_record sensor_names fs s f /\
                  w_files w' !! segment_path out case_name s = Some f) /\
       (datetime_min <= segment_start s)%Z /\
       (segment_end s <= datetime_max)%Z) /\
    (forall p, (forall s, s ∈ l -> p <> segment_path out case_name s) ->
               w_files w' !! p = w_files w !! p).
Proof.
  induction 1 as [|x l Hx Hnd IH]; intros w u w' H; simpl in H.
  - inv_run. split; [intros s Hs; inversion Hs | auto].
  - apply bind_Ok in H as (u1 & w1 & Hseg & H).
    apply generate_segment_Ok in Hseg as ((f & Hf & Hfiles) & Hrange).
    destruct (IH _ _ _ H) as [IHin IHout].
    split.
    + intros s [->|Hs]%elem_of_cons; [|apply IHin, Hs].
      split; [|exact Hrange]. exists f. split; [exact Hf|].
      rewrite IHout, Hfiles; [apply lookup_insert_eq|].
      intros s Hs [_ ->]%segment_path_inj. contradiction.
    + intros p Hp. rewrite IHout, Hfiles.
      * apply lookup_insert_ne. intros E. apply (Hp x); [left | auto].
      * intros s Hs. apply Hp. right. exact Hs.
Qed.

(** A loop that fails has completed a prefix of the segments: their files
    are written, and nothing else has changed. *)
Lemma segments_loop_Raise O sensor_names fs out case_name l :
  NoDup l ->
  forall w e w',
    for_each (generate_segment O sensor_names fs out case_name) l w
      = Raise e w' ->
    exists (completed : list Z) (failing : Z) (rest : list Z),
      l = (completed ++ failing :: rest)%list /\
      (forall s, s ∈ completed ->
         exists f, segment_record sensor_names fs s f /\
                   w_files w' !! segment_path out case_name s = Some f) /\
      (forall p,
         (forall s, s ∈ completed -> p <> segment_path out case_name s) ->
         w_files w' !! p = w_files w !! p).
Proof.
  induction 1 as [|x l Hx Hnd IH]; intros w e w' H; simpl in H.
  - discriminate H.
  - unfold bind in H.
    destruct (generate_segment O sensor_names fs out case_name x w)
      as [u1 w1|e1 w1] eqn:Hseg.
    + apply generate_segment_Ok in Hseg as ((f & Hf & Hfiles) & _).
      destruct (IH _ _ _ H) as (completed & failing & rest & -> & Hin & Hout).
      exists (x :: completed), failing, rest.
      split; [reflexivity|]. split.
      * intros s [->|Hs]%elem_of_cons; [|apply Hin, Hs].
        exists f. split; [exact Hf|].
        rewrite Hout, Hfiles; [apply lookup_insert_eq|].
        intros s Hs [_ ->]%segment_path_inj.
        apply Hx. apply elem_of_app. left. exact Hs.
      * intros p Hp. rewrite Hout, Hfiles.
        -- apply lookup_insert_ne. intros E. apply (Hp x); [left | auto].
        -- intros s Hs. apply Hp. right. exact Hs.
    + injection H as <- <-.
      apply fails_cleanly_generate_segment in Hseg.
      exists [], x, l. split; [reflexivity|]. split.
      * intros s Hs. inversion Hs.
      * intros p _. rewrite Hseg. reflexivity.
Qed.

(** ** The whole run *)

Lemma py_get_eq d key fallback w :
  py_get d key fallback w
  = match get_field d key fallback with
    | Some v => Ok v w
    | None => Raise AttributeError w
    end.
Proof. destruct d; reflexivity. Qed.

(** The run, with the resolution of the configuration done. *)
Lemma generate_sample_dataset_eq O config out n case_name w :
  generate_sample_dataset O config out n case_name w
  = match resolved_sensor_names config,
          resolved_sampling_frequency config with
    | Some sensor_names, Some fs =>
        (_ <- for_each (generate_segment O sensor_names fs out case_name)
                       (seqZ 1 n) ;;
         now <- datetime_now O ;;
         _ <- write_file (summary_path out)
                (YamlFile (dataset_summary sensor_names fs n case_name now)) ;;
         ret out) w
    | _, _ => Raise AttributeError w
    end.
Proof.
  unfold generate_sample_dataset, resolved_sensor_names,
    resolved_sampling_frequency.
  unfold bind at 1. rewrite py_get_eq.
  destruct (get_field config "oma" (PDict ∅)) as [oma|]; [|reflexivity].
  unfold bind at 1. rewrite py_get_eq.
  destruct (get_field oma "geometry" (PDict ∅)) as [geometry|];
    [|reflexivity].
  unfold bind at 1. rewrite py_get_eq.
  destruct (get_field geometry "sensor_names" _) as [sensor_names|];
    [|reflexivity].
  unfold bind at 1. rewrite py_get_eq.
  destruct (get_field config "signal_processing" (PDict ∅)) as [sp|];
    [|reflexivity].
  unfold bind at 1. rewrite py_get_eq.
  destruct (get_field sp "sampling_frequency" (PInt 250)) as [fs|];
    reflexivity.
Qed.

Lemma elem_of_segments s n : s ∈ seqZ 1 n <-> (1 <= s <= n)%Z.
Proof. rewrite elem_of_seqZ. lia. Qed.

Lemma segments_loop_total O sensor_names fs out case_name names fs_hz l :
  names_of sensor_names = Some names -> int_of fs = Some fs_hz ->
  (0 < fs_hz)%Z -> (NS_PER_SECOND mod fs_hz = 0)%Z ->
  (forall s, s ∈ l -> (1 <= s <= last_segment)%Z) ->
  forall w, exists w',
    for_each (generate_segment O sensor_names fs out case_name) l w
      = Ok tt w'.
Proof.
  intros Hnames Hfs Hpos Hdiv. induction l as [|x l IH]; intros Hl w; simpl.
  - eexists. reflexivity.
  - destruct (generate_segment_total O sensor_names fs out case_name x w
                names fs_hz Hnames Hfs Hpos Hdiv) as [w1 H1].
    { apply Hl. left. }
    destruct (IH (fun s Hs => Hl s (list_elem_of_further _ _ _ Hs)) w1)
      as [w2 H2].
    exists w2. rewrite (bind_Ok_intro _ _ _ _ _ H1). exact H2.
Qed.


(** The run completes for a well-typed configuration, a positive sampling
    frequency with a period of whole nanoseconds, and no more segments than
    fit before the year 10000. *)
Lemma generate_sample_dataset_total
    O config out n case_name w sensor_names fs names fs_hz :
  resolved_sensor_names config = Some sensor_names ->
  resolved_sampling_frequency config = Some fs ->
  names_of sensor_names = Some names -> int_of fs = Some fs_hz ->
  (0 < fs_hz)%Z -> (NS_PER_SECOND mod fs_hz = 0)%Z ->
  (n <= last_segment)%Z ->
  exists w', generate_sample_dataset O config out n case_name w = Ok out w'.
Proof.
  intros Hsn Hfs Hnames Hint Hpos Hdiv Hn.
  rewrite generate_sample_dataset_eq, Hsn, Hfs.
  destruct (segments_loop_total O sensor_names fs out case_name names fs_hz
              (seqZ 1 n) Hnames Hint Hpos Hdiv) with (w := w) as [w1 H1].
  { intros s Hs%elem_of_segments. lia. }
  eexists. rewrite (bind_Ok_intro _ _ _ _ _ H1). reflexivity.
Qed.

Lemma two_sensor_config_resolved :
  resolved_sensor_names two_sensor_config = Some (PStrs ["s1"; "s2"]) /\
  resolved_sampling_frequency two_sensor_config = Some (PInt 10).
Proof. split; reflexivity. Qed.


Lemma segments_prefix n (completed rest : list Z) (failing : Z) s :
  seqZ 1 n = (completed ++ failing :: rest)%list ->
  s ∈ completed <-> (1 <= s <= Z.of_nat (length completed))%Z.
Proof.
  intros Hl.
  assert (Z.of_nat (length completed) < n)%Z as Hlt.
  { apply (f_equal length) in Hl.
    rewrite length_seqZ, length_app in Hl. simpl in Hl. lia. }
  rewrite list_elem_of_lookup. split.
  - intros [i Hi].
    pose proof (lookup_lt_Some _ _ _ Hi) as Hlen.
    pose proof (lookup_app_l_Some _ (failing :: rest) _ _ Hi) as Hi'.
    rewrite <- Hl in Hi'. apply lookup_seqZ in Hi' as [-> _]. lia.
  - intros Hs. exists (Z.to_nat (s - 1)).
    assert (seqZ 1 n !! Z.to_nat (s - 1) = Some s) as Hlook
      by (apply lookup_seqZ; lia).
    rewrite Hl, lookup_app_l in Hlook by lia. exact Hlook.
Qed.


(** ** Failures of the synthesizer *)

Lemma synthesis_negative_count O names duration fs freqs noise_level trend w :
  (duration * 60 * fs < 0)%Z ->
  generate_synthetic_acceleration_data O names duration fs freqs
    noise_level trend w = Raise ValueError w.
Proof.
  unfold generate_synthetic_acceleration_data, linspace.
  intros Hn. apply Z.ltb_lt in Hn. rewrite Hn. reflexivity.
Qed.

Lemma synthesis_zero_rate O names duration freqs noise_level trend w :
  generate_synthetic_acceleration_data O names duration 0 freqs
    noise_level trend w
  = Raise ZeroDivisionError (World (w_rng w) (S (w_clk w)) (w_files w)).
Proof.
  unfold generate_synthetic_acceleration_data, linspace.
  rewrite Z.mul_0_r. reflexivity.
Qed.



Lemma zero_rate_run_fails O out n case_name w :
  (1 <= n)%Z ->
  exists w',
    generate_sample_dataset O zero_rate_config out n case_name w
      = Raise ZeroDivisionError w'.
Proof.
  intros Hn. rewrite generate_sample_dataset_eq.
  change (resolved_sensor_names zero_rate_config)
    with (Some (PStrs default_sensor_names)).
  change (resolved_sampling_frequency zero_rate_config) with (Some (PInt 0)).
  rewrite (seqZ_cons 1 n) by lia.
  eexists.
  apply bind_Raise_intro. simpl for_each. apply bind_Raise_intro.
  unfold generate_segment.
  erewrite bind_Ok_intro
    by (apply segment_times_Ok; pose proof (segment_in_range 1) as Hr;
        destruct datetime_constants as (_ & _ & _ & Hlast);
        rewrite Hlast in Hr; repeat split; try reflexivity; lia).
  cbv beta iota.
  erewrite bind_Ok_intro by (apply randn_Ok; split; reflexivity).
  erewrite bind_Ok_intro by (apply randn_Ok; split; reflexivity).
  erewrite bind_Ok_intro by reflexivity.
  erewrite bind_Ok_intro by reflexivity.
  apply bind_Raise_intro.
  apply synthesis_zero_rate.
Qed.




(** X5.  A section of the configuration that is present but is no mapping
    (an empty [oma:], [geometry:] or [signal_processing:] entry, which YAML
    loads as [None]) makes the run fail with [AttributeError] at once:
    nothing is drawn, the clock is not read and no file is written.  The
    defaults only cover missing keys. *)
Theorem section_not_a_mapping_fails O config out n case_name w :
  resolved_sensor_names config = None \/
  resolved_sampling_frequency config = None ->
  generate_sample_dataset O config out n case_name w
  = Raise AttributeError w.
Proof.
  intros H. rewrite generate_sample_dataset_eq.
  destruct H as [-> | ->]; [reflexivity|].
  destruct (resolved_sensor_names config); reflexivity.
Qed.

Lemma section_not_a_mapping_fails_witness :
  generate_sample_dataset still_oracle empty_section_config "out" 2 "t"
    fresh_world = Raise AttributeError fresh_world.
Proof.
  apply (section_not_a_mapping_fails still_oracle empty_section_config
           "out" 2 "t" fresh_world).
  left. reflexivity.
Defined.



(** ** Defaults of the configuration *)

Lemma resolved_sensor_names_missing m :
  sensor_names_missing m ->
  resolved_sensor_names (PDict m) = Some (PStrs default_sensor_names).
Proof.
  unfold resolved_sensor_names, get_field.
  intros [Ho | (o & Ho & [Hg | (g & Hg & Hs)])]; rewrite Ho; simpl.
  - reflexivity.
  - rewrite Hg. reflexivity.
  - rewrite Hg. simpl. rewrite Hs. reflexivity.
Qed.

Lemma resolved_sampling_frequency_missing m :
  sampling_frequency_missing m ->
  resolved_sampling_frequency (PDict m) = Some (PInt 250).
Proof.
  unfold resolved_sampling_frequency, get_field.
  intros [Hsp | (sp & Hsp & Hf)]; rewrite Hsp; simpl.
  - reflexivity.
  - rewrite Hf. reflexivity.
Qed.

Lemma resolved_with_sensor_names m v :
  resolved_sensor_names (with_sensor_names m v) = Some v /\
  resolved_sampling_frequency (with_sensor_names m v)
  = resolved_sampling_frequency (PDict m).
Proof.
  unfold with_sensor_names, resolved_sensor_names,
    resolved_sampling_frequency, get_field.
  rewrite !lookup_insert_eq. simpl. rewrite !lookup_insert_eq. simpl.
  rewrite lookup_insert_eq, lookup_insert_ne by discriminate. auto.
Qed.

Lemma resolved_with_sampling_frequency m v :
  resolved_sampling_frequency (with_sampling_frequency m v) = Some v /\
  resolved_sensor_names (with_sampling_frequency m v)
  = resolved_sensor_names (PDict m).
Proof.
  unfold with_sampling_frequency, resolved_sensor_names,
    resolved_sampling_frequency, get_field.
  rewrite !lookup_insert_eq. simpl. rewrite lookup_insert_eq.
  rewrite lookup_insert_ne by discriminate. auto.
Qed.

(** X7.  A configuration in which a key is missing on the way to the
    sensor names runs exactly like the same configuration with
    [oma.geometry.sensor_names] set to the four default names, and one
    without a sampling frequency runs exactly like the same configuration
    with [signal_processing.sampling_frequency] set to 250: same result,
    same draws, same files. *)
Theorem missing_fields_run_as_defaults O m out n case_name w :
  (sensor_names_missing m ->
   generate_sample_dataset O (PDict m) out n case_name w
   = generate_sample_dataset O
       (with_sensor_names m (PStrs default_sensor_names)) out n case_name w)
  /\
  (sampling_frequency_missing m ->
   generate_sample_dataset O (PDict m) out n case_name w
   = generate_sample_dataset O
       (with_sampling_frequency m (PInt 250)) out n case_name w).
Proof.
  split; intros H; rewrite !generate_sample_dataset_eq.
  - destruct (resolved_with_sensor_names m (PStrs default_sensor_names))
      as [-> ->].
    rewrite (resolved_sensor_names_missing m H). reflexivity.
  - destruct (resolved_with_sampling_frequency m (PInt 250)) as [-> ->].
    rewrite (resolved_sampling_frequency_missing m H). reflexivity.
Qed.

Lemma missing_fields_run_as_defaults_witness :
  generate_sample_dataset still_oracle (PDict ∅) "out" 2 "t" fresh_world
  = generate_sample_dataset still_oracle
      (with_sensor_names ∅ (PStrs default_sensor_names)) "out" 2 "t"
      fresh_world /\
  generate_sample_dataset still_oracle (PDict ∅) "out" 2 "t" fresh_world
  = generate_sample_dataset still_oracle
      (with_sampling_frequency ∅ (PInt 250)) "out" 2 "t" fresh_world.
Proof.
  destruct (missing_fields_run_as_defaults still_oracle ∅ "out" 2 "t"
              fresh_world) as [Hnames Hfs].
  split; [apply Hnames | apply Hfs]; left; reflexivity.
Defined.

(** ** Names and times of the segments *)

(** X8.  Within one output directory, two segment files have the same
    path only if they carry the same case name and the same segment number,
    and no segment file has the path of the summary: runs with different case
    names never overwrite each other's records, a run never overwrites one of
    its own records, and the summary never replaces a record. *)
Theorem segment_files_never_collide dir c1 c2 s1 s2 :
  plain_name c1 -> plain_name c2 ->
  (c1 <> c2 \/ s1 <> s2 ->
   segment_path dir c1 s1 <> segment_path dir c2 s2) /\
  segment_path dir c1 s1 <> summary_path dir.
Proof.
  intros _ _. split.
  - intros Hne [-> ->]%segment_path_inj. destruct Hne; contradiction.
  - intros E. symmetry in E. revert E. apply summary_path_not_segment.
Qed.

Lemma segment_files_never_collide_witness :
  segment_path "out" "a" 1 <> segment_path "out" "b" 1 /\
  segment_path "out" "a" 1 <> summary_path "out".
Proof.
  destruct (segment_files_never_collide "out" "a" "b" 1 1 eq_refl eq_refl)
    as [Hne Hsum].
  split; [apply Hne; left; discriminate | exact Hsum].
Defined.

Lemma segment_times_overflow s w :
  (last_segment < s)%Z -> segment_times s w = Raise OverflowError w.
Proof.
  intros Hs. pose proof (segment_past_range s Hs) as Hend.
  unfold segment_times, segment_end, segment_start in *.
  unfold bind at 1. unfold datetime_add at 1.
  destruct (_ && _); [|reflexivity]. simpl.
  unfold bind at 1. unfold datetime_add.
  destruct (Z.leb_spec
              (anchor_time + timedelta_minutes ((s - 1) * 30)
               + timedelta_minutes 25) datetime_max) as [Hle|Hgt].
  - lia.
  - rewrite andb_false_r. reflexivity.
Qed.

(** X9.  Segment [s] (counted from 1) starts [(s-1) * 30] minutes after
    2024-01-01 09:00:00 and ends 25 minutes after its start, so the next
    segment starts 30 minutes after this one, 5 minutes after its end.  This
    holds up to segment 139832334; computing the times of any later segment
    fails with [OverflowError], the end passing the last [datetime]. *)
Theorem segment_schedule s w :
  (1 <= s)%Z ->
  ((s <= 139832334)%Z ->
   segment_times s w
   = Ok (datetime 2024 1 1 9 0 0 + (s - 1) * 30 * US_PER_MINUTE,
         datetime 2024 1 1 9 0 0 + (s - 1) * 30 * US_PER_MINUTE
         + 25 * US_PER_MINUTE)%Z w /\
   segment_start (s + 1) = (segment_start s + 30 * US_PER_MINUTE)%Z /\
   segment_start (s + 1) = (segment_end s + 5 * US_PER_MINUTE)%Z) /\
  ((139832334 < s)%Z -> segment_times s w = Raise OverflowError w).
Proof.
  intros Hs. destruct datetime_constants as (_ & _ & _ & Hlast). split.
  - intros Hle. rewrite <- Hlast in Hle.
    destruct (segment_in_range s (conj Hs Hle)) as [Hst Hen].
    split; [|split].
    + apply segment_times_Ok. repeat split; try apply Hst; try apply Hen.
    + unfold segment_start, timedelta_minutes. lia.
    + unfold segment_end, segment_start, timedelta_minutes. lia.
  - intros Hgt. rewrite <- Hlast in Hgt.
    apply segment_times_overflow, Hgt.
Qed.

Lemma segment_schedule_witness :
  segment_times 3 fresh_world
  = Ok (datetime 2024 1 1 10 0 0, datetime 2024 1 1 10 25 0) fresh_world.
Proof.
  destruct (segment_schedule 3 fresh_world ltac:(lia)) as [Hin _].
  destruct (Hin ltac:(lia)) as [Hrun _].
  rewrite Hrun. vm_compute. reflexivity.
Defined.

(** ** Time axes *)

Lemma replace_second_microsecond_spec dt :
  (replace_second_microsecond dt mod US_PER_MINUTE = 0)%Z /\
  (replace_second_microsecond dt <= dt
   < replace_second_microsecond dt + US_PER_MINUTE)%Z.
Proof.
  unfold replace_second_microsecond, US_PER_MINUTE, US_PER_SECOND. lia.
Qed.





(** ** Columns and files of the synthesizer *)

(** X12.  The columns of a returned table are named by the distinct sensor
    names: no column name occurs twice, every sensor has a column and every
    column belongs to a sensor.  A name listed more than once therefore gets
    a single column, and the table has at most as many columns as names
    were passed. *)
Theorem table_columns_are_distinct_sensors
    O names duration fs freqs noise_level trend w df w' :
  generate_synthetic_acceleration_data O names duration fs freqs
    noise_level trend w = Ok df w' ->
  NoDup (column_names df) /\
  (forall s, s ∈ column_names df <-> s ∈ names) /\
  (length (column_names df) <= length names)%nat.
Proof.
  intros H.
  apply generate_synthetic_acceleration_data_Ok in H
    as (_ & _ & _ & _ & _ & Hkeys & Hnodup & _).
  split; [exact Hnodup|]. split; [exact Hkeys|].
  apply submseteq_length, NoDup_submseteq; [exact Hnodup|].
  intros s Hs. apply Hkeys, Hs.
Qed.

Lemma table_columns_are_distinct_sensors_witness :
  exists df w',
    generate_synthetic_acceleration_data still_oracle ["s1"; "s2"; "s1"] 1 10
      [5%R; 12%R] 0.05%R 0.02%R fresh_world = Ok df w' /\
    NoDup (column_names df) /\ (length (column_names df) <= 3)%nat.
Proof.
  destruct (generate_synthetic_acceleration_data_total still_oracle
              ["s1"; "s2"; "s1"] 1 10 [5%R; 12%R] 0.05%R 0.02%R fresh_world)
    as (df & w' & Hrun); [lia | lia | reflexivity |].
  exists df, w'. split; [exact Hrun|].
  destruct (table_columns_are_distinct_sensors _ _ _ _ _ _ _ _ _ _ Hrun)
    as (Hnd & _ & Hlen).
  split; [exact Hnd | exact Hlen].
Defined.

(** X14.  The synthesizer never creates or changes a file, whether it
    returns a table or raises. *)
Theorem synthesizer_never_writes
    O names duration fs freqs noise_level trend w :
  files_after
    (generate_synthetic_acceleration_data O names duration fs freqs
       noise_level trend w)
  = w_files w.
Proof. apply never_writes_generate_synthetic_acceleration_data. Qed.

(** ** Edge artifacts and short signals *)

Lemma iadd_slice_array_Ok a start stop v a' w w' :
  iadd_slice_array a start stop v w = Ok a' w' ->
  let lo := fst (slice_bounds (Z.of_nat (length a)) start stop) in
  let hi := snd (slice_bounds (Z.of_nat (length a)) start stop) in
  (length v = Z.to_nat (hi - lo) \/ length v = 1%nat) /\
  (forall k, ~ (lo <= Z.of_nat k < hi)%Z -> a' !! k = a !! k) /\
  length a' = length a.
Proof.
  unfold iadd_slice_array, iadd_slice_scalar.
  destruct (slice_bounds _ start stop) as [lo hi]. simpl.
  case_bool_decide as Hlen; [|case_bool_decide as Hone]; intros Hr; inv_run.
  - split; [left; exact Hlen|]. split; [|apply length_imap].
    intros k Hk. rewrite list_lookup_imap.
    destruct (a !! k); [simpl|reflexivity].
    rewrite bool_decide_false by exact Hk. reflexivity.
  - split; [right; exact Hone|]. split; [|apply length_imap].
    intros k Hk. rewrite list_lookup_imap.
    destruct (a !! k); [simpl|reflexivity].
    rewrite bool_decide_false by exact Hk. reflexivity.
Qed.

(** X15.  The edge-artifact step keeps the length of the signal and only
    changes samples among the first and the last [int(0.02 * n)]: every
    sample at an index from [int(0.02 * n)] up to, and excluding,
    [n - int(0.02 * n)] is left exactly as it was. *)
Theorem edge_artifacts_touch_edges_only O n signal w signal' w' :
  Z.of_nat (length signal) = n ->
  inject_edge_artifacts O n signal w = Ok signal' w' ->
  length signal' = length signal /\
  forall k, (2 * n / 100 <= Z.of_nat k < n - 2 * n / 100)%Z ->
    signal' !! k = signal !! k.
Proof.
  intros Hn H.
  split; [exact (ensures_inject_edge_artifacts _ _ _ _ _ _ H)|].
  unfold inject_edge_artifacts in H.
  assert (0 <= n)%Z as Hn0 by lia.
  rewrite py_int_scale_nonneg in H by lia.
  set (edge := (2 * n / 100)%Z) in *.
  assert (0 <= edge <= n)%Z as Hedge by (subst edge; lia).
  apply bind_Ok in H as (u & w1 & _ & H).
  destruct (Qltb u 0.2); [|inv_run; auto].
  apply bind_Ok in H as (u1 & w2 & _ & H).
  apply bind_Ok in H as (s1 & w3 & Hstart & H).
  apply bind_Ok in H as (u2 & w4 & _ & H).
  assert (length s1 = length signal /\
          forall k, (edge <= Z.of_nat k)%Z -> s1 !! k = signal !! k)
    as [Hlen1 Hs1].
  { destruct (Qltb u1 0.5); [|inv_run; auto].
    apply bind_Ok in Hstart as (ramp & w5 & _ & Hstart).
    apply bind_Ok in Hstart as (r & w6 & _ & Hstart).
    apply iadd_slice_array_Ok in Hstart as (_ & Hout & Hlen).
    split; [exact Hlen|]. intros k Hk. apply Hout.
    unfold slice_bounds, norm_index. simpl.
    destruct (Z.ltb_spec edge 0); lia. }
  intros k Hk. rewrite <- Hs1 by lia.
  destruct (Qltb u2 0.5); [|inv_run; auto].
  apply bind_Ok in H as (ramp & w5 & Hramp & H).
  apply linspace_Ok in Hramp as (_ & Hramp & _).
  apply bind_Ok in H as (r & w6 & _ & H).
  apply iadd_slice_array_Ok in H as (Hshape & Hout & _).
  rewrite length_map, Hramp in Hshape.
  revert Hshape Hout. unfold slice_bounds, norm_index. simpl.
  rewrite Hlen1, Hn.
  destruct (Z.ltb_spec (- edge) 0); intros Hshape Hout; apply Hout; lia.
Qed.

Lemma edge_artifacts_touch_edges_only_witness :
  exists signal' w',
    inject_edge_artifacts still_oracle 600 (zeros 600) fresh_world
      = Ok signal' w' /\
    signal' !! 300%nat = zeros 600 !! 300%nat.
Proof.
  destruct (returns_inject_edge_artifacts still_oracle 600 (zeros 600)
              fresh_world ltac:(lia) (length_zeros 600))
    as (signal' & w' & Hrun & _).
  exists signal', w'. split; [exact Hrun|].
  apply (edge_artifacts_touch_edges_only still_oracle 600 (zeros 600)
           fresh_world signal' w').
  - rewrite length_zeros. reflexivity.
  - exact Hrun.
  - lia.
Defined.

Lemma raises_only_ret {A} e (a : A) : raises_only e (ret a).
Proof. intros w e' w' H. discriminate H. Qed.

Lemma raises_only_raise {A} e : raises_only e (@raise A e).
Proof. intros w e' w' [= <- _]. reflexivity. Qed.

Lemma raises_only_bind {A B} e (c : M A) (k : A -> M B) :
  raises_only e c -> (forall a, raises_only e (k a)) ->
  raises_only e (x <- c ;; k x).
Proof.
  intros Hc Hk w e' w' H. unfold bind in H.
  destruct (c w) as [a w1|e1 w1] eqn:Hcw.
  - eapply Hk, H.
  - injection H as <- _. eapply Hc, Hcw.
Qed.

Lemma raises_only_rand e O : raises_only e (rand O).
Proof. intros w e' w' H. discriminate H. Qed.

Lemma raises_only_randn e O : raises_only e (randn O).
Proof. intros w e' w' H. discriminate H. Qed.

Lemma raises_only_randint O low high :
  raises_only ValueError (randint O low high).
Proof.
  intros w e' w'. unfold randint. case_match; [discriminate|].
  intros [= <- _]. reflexivity.
Qed.

Lemma raises_only_linspace start stop num :
  raises_only ValueError (linspace start stop num).
Proof.
  intros w e' w'. unfold linspace. repeat case_match; try discriminate.
  intros [= <- _]. reflexivity.
Qed.

Lemma raises_only_iadd_slice_array a start stop v :
  raises_only ValueError (iadd_slice_array a start stop v).
Proof.
  intros w e' w'. unfold iadd_slice_array.
  repeat case_match; try discriminate.
  intros [= <- _]. reflexivity.
Qed.

Lemma raises_only_inject_outlier O n signal :
  raises_only ValueError (inject_outlier O n signal).
Proof.
  unfold inject_outlier, shift_outlier, outlier_range.
  apply raises_only_bind; [apply raises_only_rand|]. intros u.
  destruct (Qltb u 0.1); [|apply raises_only_ret].
  apply raises_only_bind.
  { apply raises_only_bind; [apply raises_only_randint|]. intros s.
    apply raises_only_bind; [apply raises_only_randint|]. intros d.
    apply raises_only_ret. }
  intros [a b].
  apply raises_only_bind; [apply raises_only_randn|]. intros r.
  apply raises_only_ret.
Qed.

Lemma raises_only_inject_edge_artifacts O n signal :
  raises_only ValueError (inject_edge_artifacts O n signal).
Proof.
  unfold inject_edge_artifacts.
  apply raises_only_bind; [apply raises_only_rand|]. intros u.
  destruct (Qltb u 0.2); [|apply raises_only_ret].
  apply raises_only_bind; [apply raises_only_rand|]. intros u1.
  apply raises_only_bind.
  { destruct (Qltb u1 0.5); [|apply raises_only_ret].
    apply raises_only_bind; [apply raises_only_linspace|]. intros ramp.
    apply raises_only_bind; [apply raises_only_randn|]. intros r.
    apply raises_only_iadd_slice_array. }
  intros s1.
  apply raises_only_bind; [apply raises_only_rand|]. intros u2.
  destruct (Qltb u2 0.5); [|apply raises_only_ret].
  apply raises_only_bind; [apply raises_only_linspace|]. intros ramp.
  apply raises_only_bind; [apply raises_only_randn|]. intros r.
  apply raises_only_iadd_slice_array.
Qed.

Lemma outlier_range_short O n w :
  (0 <= n < 20)%Z -> exists w', outlier_range O n w = Raise ValueError w'.
Proof.
  intros Hn. unfold outlier_range.
  rewrite !py_int_scale_nonneg by lia.
  unfold bind at 1. unfold randint at 1.
  destruct (1 * n / 10 <? 8 * n / 10)%Z; [|eexists; reflexivity].
  unfold bind at 1. unfold randint.
  destruct (Z.ltb_spec (1 * n / 100) (5 * n / 100)); [lia|].
  eexists. reflexivity.
Qed.



(** ** The record writer *)

(** X17.  Input and output failures apart, which the model of the file
    store leaves out, [create_sample_pickle_file] completes and consumes no
    random number.  It puts at [output_path] a record of the given table and
    of the given metadata, or, when none is given, of a default dictionary
    that declares a sampling frequency of 250 Hz whatever the table holds;
    only in that case is the clock read.  Whatever was at [output_path] is
    replaced, so of two calls on one path only the second shows, and every
    other file is left alone. *)
Theorem pickle_file_written O path df md w :
  exists m w',
    create_sample_pickle_file O path df md w = Ok tt w' /\
    m = default
          (PDict (list_to_map
             [("tag_columns", PStrs []);
              ("sampling_frequency", PInt 250);
              ("generation_timestamp", PStr (isoformat (o_now O (w_clk w))));
              ("synthetic", PBool true)])) md /\
    w_rng w' = w_rng w /\
    w_clk w' = match md with
               | Some _ => w_clk w
               | None => S (w_clk w)
               end /\
    w_files w' !! path = Some (PickleFile df m) /\
    (forall p, p <> path -> w_files w' !! p = w_files w !! p) /\
    (forall df0 md0 w0 u,
       create_sample_pickle_file O path df0 md0 w0 = Ok u w ->
       w_files w' = <[path := PickleFile df m]> (w_files w0)).
Proof.
  destruct md as [m|]; eexists _, _;
    (split; [reflexivity|]); (split; [reflexivity|]); simpl;
    (split; [reflexivity|]); (split; [reflexivity|]);
    (split; [apply lookup_insert_eq|]);
    (split; [intros p Hp; apply lookup_insert_ne; congruence|]);
    intros df0 md0 w0 u H0;
    apply create_sample_pickle_file_Ok in H0 as [H0 _];
    destruct md0; destruct H0 as [-> _]; apply insert_insert_eq.
Qed.

(** ** The entry point *)

Lemma summary_written_on_success O config out n case_name r w w' :
  generate_sample_dataset O config out n case_name w = Ok r w' ->
  exists sensor_names fs now,
    w_files w' !! summary_path out
    = Some (YamlFile (dataset_summary sensor_names fs n case_name now)).
Proof.
  rewrite generate_sample_dataset_eq.
  destruct (resolved_sensor_names config) as [sensor_names|]; [|discriminate].
  destruct (resolved_sampling_frequency config) as [fs|]; [|discriminate].
  intros H.
  apply bind_Ok in H as (u & w1 & _ & H).
  apply bind_Ok in H as (now & w2 & _ & H).
  apply bind_Ok in H as (u' & w3 & Hwrite & H).
  apply ret_Ok in H as [_ ->].
  apply write_file_Ok in Hwrite as ->. simpl.
  exists sensor_names, fs, now. apply lookup_insert_eq.
Qed.

Lemma summary_untouched_on_failure O config out n case_name e w w' :
  generate_sample_dataset O config out n case_name w = Raise e w' ->
  w_files w' !! summary_path out = w_files w !! summary_path out.
Proof.
  rewrite generate_sample_dataset_eq.
  destruct (resolved_sensor_names config) as [sensor_names|];
    [|intros [= _ <-]; reflexivity].
  destruct (resolved_sampling_frequency config) as [fs|];
    [|intros [= _ <-]; reflexivity].
  intros H. unfold bind at 1 in H.
  destruct (for_each _ (seqZ 1 n) w) as [u w1|e1 w1] eqn:Hloop;
    [discriminate H|].
  injection H as _ <-.
  apply segments_loop_Raise in Hloop
    as (completed & failing & rest & _ & _ & Hout); [|apply NoDup_seqZ].
  apply Hout. intros s _. apply summary_path_not_segment.
Qed.



(** X19.  A non-empty [--output-dir] is used as it is and the [paths]
    section of the configuration is not consulted.  Without it (or with an
    empty one) the directory comes from the configuration: [data/raw] under
    the working directory when there is no [paths] section, the entry
    [input_data_dir] taken as it is when [use_relative_paths] is false.  An
    exception raised while the directory is worked out, as for a
    configuration that is no mapping, is not caught: [main] raises instead
    of returning the status 1, and nothing has been written. *)
Theorem main_output_directory
    truediv path_of O config cwd n case_name w :
  (forall dir, dir <> "" ->
     main truediv path_of O config cwd (Some dir) n case_name w
     = try_except_status
         (generate_sample_dataset O config dir n case_name) w) /\
  (forall arg, arg = None \/ arg = Some "" ->
     (forall m, config = PDict m -> m !! "paths" = None ->
        main truediv path_of O config cwd arg n case_name w
        = try_except_status
            (generate_sample_dataset O config (truediv cwd "data/raw") n
               case_name) w) /\
     (forall m p s, config = PDict m -> m !! "paths" = Some (PDict p) ->
        p !! "use_relative_paths" = Some (PBool false) ->
        p !! "input_data_dir" = Some (PStr s) ->
        main truediv path_of O config cwd arg n case_name w
        = try_except_status
            (generate_sample_dataset O config (path_of s) n case_name) w) /\
     ((forall m, config <> PDict m) ->
        main truediv path_of O config cwd arg n case_name w
        = Raise AttributeError w)).
Proof.
  split.
  - intros dir Hdir. unfold main. simpl.
    apply String.eqb_neq in Hdir. rewrite Hdir. reflexivity.
  - intros arg Harg.
    assert (main truediv path_of O config cwd arg n case_name w
            = (output_dir <- output_dir_from_config truediv path_of config
                               cwd ;;
               try_except_status
                 (generate_sample_dataset O config output_dir n case_name)) w)
      as -> by (destruct Harg as [-> | ->]; reflexivity).
    unfold output_dir_from_config.
    split; [|split].
    + intros m -> Hpaths. unfold bind, py_get. rewrite Hpaths. reflexivity.
    + intros m p s -> Hpaths Hrel Hdir. unfold bind, py_get.
      rewrite Hpaths. simpl. rewrite Hrel. simpl. rewrite Hdir. reflexivity.
    + intros Hnot. destruct config; try reflexivity.
      destruct (Hnot d eq_refl).
Qed.

Lemma main_output_directory_witness :
  main (fun a b => a +:+ "/" +:+ b) (fun a => a) still_oracle (PDict ∅) "/home/user"
    None 2 "t" fresh_world
  = try_except_status
      (generate_sample_dataset still_oracle (PDict ∅) "/home/user/data/raw"
         2 "t") fresh_world /\
  main (fun a b => a +:+ "/" +:+ b) (fun a => a) still_oracle PNone "/home/user"
    None 2 "t" fresh_world = Raise AttributeError fresh_world.
Proof.
  destruct (main_output_directory (fun a b => a +:+ "/" +:+ b) (fun a => a)
              still_oracle (PDict ∅) "/home/user" 2 "t" fresh_world)
    as [_ Hconfig].
  destruct (Hconfig None (or_introl eq_refl)) as (Hdefault & _ & _).
  destruct (main_output_directory (fun a b => a +:+ "/" +:+ b) (fun a => a)
              still_oracle PNone "/home/user" 2 "t" fresh_world)
    as [_ Hnone].
  destruct (Hnone None (or_introl eq_refl)) as (_ & _ & Hraise).
  split.
  - apply (Hdefault ∅ eq_refl). reflexivity.
  - apply Hraise. intros m. discriminate.
Defined.

(** ** Amplitudes *)

Lemma iadd_array_lookup a v a' w w' k :
  iadd_array a v w = Ok a' w' -> length v = length a ->
  a' !! k = (fun x => (x + nth k v 0)%R) <$> a !! k.
Proof.
  unfold iadd_array, iadd_slice_array. simpl. intros H Hlen.
  rewrite bool_decide_true in H by lia. inv_run.
  rewrite list_lookup_imap.
  destruct (a !! k) as [x|] eqn:Hk; [simpl|reflexivity].
  apply lookup_lt_Some in Hk.
  rewrite bool_decide_true by lia.
  rewrite Nat.sub_0_r. reflexivity.
Qed.

Lemma bounded_by_iadd_array a v a' w w' b c :
  iadd_array a v w = Ok a' w' -> length v = length a ->
  bounded_by b a -> (forall k, Rabs (nth k v 0) <= c)%R ->
  bounded_by (b + c) a'.
Proof.
  intros H Hlen Ha Hv k x Hk.
  rewrite (iadd_array_lookup _ _ _ _ _ _ H Hlen) in Hk.
  destruct (a !! k) as [y|] eqn:Hy; [|discriminate].
  injection Hk as <-.
  eapply Rle_trans; [apply Rabs_triang|].
  apply Rplus_le_compat; [eapply Ha, Hy | apply Hv].
Qed.

Lemma Rabs_scaled_sin a x : (Rabs (a * sin x) <= Rabs a)%R.
Proof.
  rewrite Rabs_mult.
  assert (Rabs (sin x) <= 1)%R as Hs.
  { apply Rabs_le. pose proof (SIN_bound x). lra. }
  pose proof (Rabs_pos a). nra.
Qed.

Lemma nth_map_scaled_sin (f : R -> R) a t k :
  (Rabs (nth k (map (fun tk => (a * sin (f tk))%R) t) 0) <= Rabs a)%R.
Proof.
  destruct (nth_in_or_default k (map (fun tk => (a * sin (f tk))%R) t) 0%R)
    as [Hin | ->].
  - apply in_map_iff in Hin as (tk & <- & _). apply Rabs_scaled_sin.
  - rewrite Rabs_R0. apply Rabs_pos.
Qed.

Lemma modal_amplitude_bound (names : list string) i j :
  (0 <= j)%Z ->
  (Rabs (0.1 * sin (PI * IZR (i + 1) / IZR (Z.of_nat (length names) + 1))
         * (1 / IZR (j + 1))) <= 0.1 * (1 / IZR (j + 1)))%R.
Proof.
  intros Hj.
  assert (0 < IZR (j + 1))%R as Hpos by (apply IZR_lt; lia).
  assert (0 < 1 / IZR (j + 1))%R as Hinv
    by (apply Rdiv_lt_0_compat; lra).
  rewrite !Rabs_mult.
  rewrite (Rabs_pos_eq 0.1) by lra.
  rewrite (Rabs_pos_eq (1 / IZR (j + 1))) by lra.
  assert (Rabs (sin (PI * IZR (i + 1) / IZR (Z.of_nat (length names) + 1)))
          <= 1)%R as Hs.
  { apply Rabs_le.
    pose proof (SIN_bound
                  (PI * IZR (i + 1) / IZR (Z.of_nat (length names) + 1))).
    lra. }
  pose proof (Rabs_pos
    (sin (PI * IZR (i + 1) / IZR (Z.of_nat (length names) + 1)))).
  nra.
Qed.

Lemma modes_loop_bounded O names i t freqs :
  forall j signal b w signal' w',
    (0 <= j)%Z -> length signal = length t -> bounded_by b signal ->
    for_enumerate (modal_contribution O names i t) j freqs signal w
      = Ok signal' w' ->
    bounded_by (b + 0.1 * harmonic_from j (length freqs)) signal' /\
    length signal' = length t.
Proof.
  induction freqs as [|freq freqs IH];
    intros j signal b w signal' w' Hj Hlen Hb H; simpl in H.
  - inv_run. split; [|exact Hlen]. simpl.
    intros k x Hk. specialize (Hb k x Hk). lra.
  - apply bind_Ok in H as (s1 & w1 & Hstep & H).
    pose proof (ensures_modal_contribution _ _ _ _ _ _ _ _ _ _ Hstep) as Hl1.
    unfold modal_contribution in Hstep.
    apply bind_Ok in Hstep as (r & w2 & _ & Hstep).
    apply bind_Ok in Hstep as (phase & w3 & _ & Hstep).
    eapply bounded_by_iadd_array
      with (c := (0.1 * (1 / IZR (j + 1)))%R) in Hstep;
      [| rewrite length_map; congruence | exact Hb |].
    2: { intros k. eapply Rle_trans; [apply nth_map_scaled_sin|].
         apply modal_amplitude_bound, Hj. }
    destruct (IH (j + 1)%Z s1 _ w1 signal' w' ltac:(lia)
                 ltac:(congruence) Hstep H) as [Hbound Hlen'].
    split; [|exact Hlen'].
    intros k x Hk. specialize (Hbound k x Hk).
    simpl harmonic_from. lra.
Qed.

Lemma bounded_by_zeros n : bounded_by 0 (zeros n).
Proof.
  intros k x Hk. apply lookup_replicate in Hk as [-> _].
  rewrite Rabs_R0. lra.
Qed.

Lemma harmonic_from_0_5 : harmonic_from 0 5 = (137 / 60)%R.
Proof.
  change (harmonic_from 0 5)
    with (1 / 1 + (1 / 2 + (1 / 3 + (1 / 4 + (1 / 5 + 0)))))%R.
  lra.
Qed.

(** X20.  Whatever is drawn, the modal part of a sensor's signal, built
    from zeros by the loop over the base frequencies, never exceeds
    [0.1 * (1 + 1/2 + ... + 1/m)] in magnitude for [m] base frequencies,
    that is [137/600] for the five default ones, and adding the trend
    raises this bound by at most [|trend_amplitude|]. *)
Theorem deterministic_part_bounded
    O (names : list string) i n t freqs trend w s1 w1 s2 w2 :
  length t = Z.to_nat n ->
  for_enumerate (modal_contribution O names i t) 0%Z freqs (zeros n) w
    = Ok s1 w1 ->
  add_trend O trend t s1 w1 = Ok s2 w2 ->
  bounded_by (0.1 * harmonic_from 0 (length freqs)) s1 /\
  (length freqs = 5%nat -> bounded_by (137 / 600) s1) /\
  bounded_by (0.1 * harmonic_from 0 (length freqs) + Rabs trend) s2.
Proof.
  intros Ht Hmodes Htrend.
  destruct (modes_loop_bounded O names i t freqs 0%Z (zeros n) 0%R
              w s1 w1 ltac:(lia)
              ltac:(rewrite length_zeros; congruence)
              (bounded_by_zeros n) Hmodes) as [Hb1 Hl1].
  assert (bounded_by (0.1 * harmonic_from 0 (length freqs)) s1) as Hs1.
  { intros k x Hk. specialize (Hb1 k x Hk). lra. }
  split; [exact Hs1|]. split.
  - intros H5 k x Hk. specialize (Hs1 k x Hk).
    rewrite H5, harmonic_from_0_5 in Hs1. lra.
  - unfold add_trend in Htrend.
    apply bind_Ok in Htrend as (r & w3 & _ & Htrend).
    apply bind_Ok in Htrend as (phase & w4 & _ & Htrend).
    eapply bounded_by_iadd_array; [exact Htrend | | exact Hs1 |].
    + rewrite length_map. congruence.
    + intros k. apply nth_map_scaled_sin.
Qed.

Lemma deterministic_part_bounded_witness :
  exists s1 s2,
    bounded_by (137 / 600) s1 /\ bounded_by (137 / 600 + 0.02) s2 /\
    length s2 = 60%nat.
Proof.
  destruct (linspace_total 0 60 60 fresh_world ltac:(lia)) as [t Ht].
  apply linspace_Ok in Ht as (_ & Ht & _).
  destruct (returns_for_enumerate
              (modal_contribution still_oracle ["s1"] 0 t)
              (fun s => length s = length t)
              [5; 12; 18; 25; 35]%R) with (i := 0%Z) (s := zeros 60)
              (w := fresh_world) as (s1 & w1 & Hmodes & Hl1).
  { intros j freq s w Hs. eapply returns_weaken;
      [apply returns_modal_contribution, Hs | simpl; intros; congruence]. }
  { rewrite length_zeros. congruence. }
  destruct (returns_add_trend still_oracle 0.02 t s1 w1 Hl1)
    as (s2 & w2 & Htrend & Hl2).
  destruct (deterministic_part_bounded still_oracle ["s1"] 0 60 t
              [5; 12; 18; 25; 35]%R 0.02%R fresh_world s1 w1 s2 w2
              Ht Hmodes Htrend) as (_ & H5 & Hb2).
  exists s1, s2. split; [apply H5; reflexivity|]. split.
  - intros k x Hk. specialize (Hb2 k x Hk).
    change (length [5; 12; 18; 25; 35]%R) with 5%nat in Hb2.
    rewrite harmonic_from_0_5, (Rabs_pos_eq 0.02) in Hb2 by lra. lra.
  - rewrite Hl2, Hl1, Ht. reflexivity.
Defined.

(** X21.  Re-centering a non-empty signal a second time forgets the first
    target: the result is the signal re-centered once on the second target.
    Differences between samples survive any re-centering. *)
Theorem recentering_composes signal t1 t2 :
  (0 < length signal)%nat ->
  shift_mean (shift_mean signal t1) t2 = shift_mean signal t2 /\
  forall i j a b,
    shift_mean signal t1 !! i = Some a ->
    shift_mean signal t1 !! j = Some b ->
    exists a0 b0, signal !! i = Some a0 /\ signal !! j = Some b0 /\
                  (a - b = a0 - b0)%R.
Proof.
  intros Hlen. split.
  - unfold shift_mean at 1. rewrite (mean_shift_mean signal t1 Hlen).
    unfold shift_mean. rewrite map_map. apply map_ext. intros x. lra.
  - intros i j a b Ha Hb. unfold shift_mean in Ha, Hb.
    change (map ?f ?l) with (f <$> l) in Ha, Hb.
    rewrite list_lookup_fmap in Ha, Hb.
    destruct (signal !! i) as [a0|]; [|discriminate].
    destruct (signal !! j) as [b0|]; [|discriminate].
    injection Ha as <-. injection Hb as <-.
    exists a0, b0. split; [reflexivity|]. split; [reflexivity|]. lra.
Qed.

Lemma recentering_composes_witness :
  shift_mean (shift_mean [1; 2; 6]%R (-1)) (-0.97)
  = shift_mean [1; 2; 6]%R (-0.97).
Proof.
  apply (recentering_composes [1; 2; 6]%R (-1) (-0.97)). simpl. lia.
Defined.
